(** * oxygen_sim.py: Bohr-style oxygen atom, electrons on two circular shells

    A shallow embedding of [quiz1/simua/oxygen_sim.py] and the properties
    of its specification.

    - Python [float] is IEEE 754 binary64: it is Rocq's primitive [float],
      whose [+], [*], [/] and comparisons are the machine's, specified by
      [SpecFloat] through [FloatAxioms]. [%] is built on C's [fmod], which
      is exact; [cos] and [sin] are parameters.
    - Python [int] is [Z]; writing one in decimal fails beyond 4300 digits.
    - A method [def m(self, ...)] is a computation [M S A] on the object [S]
      it is called on: it returns a value or raises, and leaves a (possibly
      mutated) object behind.
    - [str] is [string]; the source file is UTF-8, so a non-ASCII letter is
      the bytes of its encoding.

    The file has the program first ([Electron], [Atom], the two modes and
    [main]), then the vocabulary of the properties, and the proofs:
    binary64 rounding as far as [%] by [2π] needs it, then the properties
    of [step], of the construction, of [summary], of [position] and
    [positions], and of [main]. *)

From Stdlib Require Import ZArith List String Ascii Bool Lia Floats.
From stdpp Require Import base option list gmap sorting pretty.

#[local] Set Warnings "-inexact-float".
#[local] Open Scope Z_scope.

(** ** Python's numeric semantics, as far as the program uses it *)

Module Py.

(** The exceptions that can occur. All but [KeyboardInterrupt] derive from
    Python's [Exception] and are caught by [except Exception]. *)
Inductive exn : Type :=
  | OverflowError
  | ValueError
  | ZeroDivisionError
  | ImportError
  | RuntimeError
  | KeyboardInterrupt.

Definition is_Exception (e : exn) : bool :=
  match e with
  | KeyboardInterrupt => false
  | _ => true
  end.

Inductive result (A : Type) : Type :=
  | Ok (a : A)
  | Raise (e : exn).
Arguments Ok {A} a.
Arguments Raise {A} e.

(** A computation on an object of type [S]: outcome and final object. An
    exception keeps the mutations done before it was raised. *)
Definition M (S A : Type) : Type := S -> result A * S.

Definition ret {S A} (a : A) : M S A := fun s => (Ok a, s).
Definition raise {S A} (e : exn) : M S A := fun s => (Raise e, s).
Definition bind {S A B} (c : M S A) (k : A -> M S B) : M S B :=
  fun s =>
    match c s with
    | (Ok a, s') => k a s'
    | (Raise e, s') => (Raise e, s')
    end.
Definition get {S} : M S S := fun s => (Ok s, s).
Definition put {S} (s : S) : M S unit := fun _ => (Ok tt, s).
Definition lift {S A} (r : result A) : M S A := fun s => (r, s).

Declare Scope py_scope.
Delimit Scope py_scope with py.
Notation "x <- c ;; k" := (bind c (fun x => k))
  (at level 100, c at next level, right associativity) : py_scope.
Notation "c ;;; k" := (bind c (fun _ => k))
  (at level 100, right associativity) : py_scope.
#[local] Open Scope py_scope.

(** Running a computation on a part of the object, here a field of it. *)
Definition zoom {S T A} (proj : S -> T) (upd : T -> S -> S) (c : M T A) : M S A :=
  fun s => let '(r, t) := c (proj s) in (r, upd t s).

(** [for x in l: body(x)], the loop variable ranging over plain values. *)
Fixpoint for_in {S A} (l : list A) (body : A -> M S unit) : M S unit :=
  match l with
  | [] => ret tt
  | x :: l' => body x ;;; for_in l' body
  end.

(** [[body(e) for e in l]] where [l] is a list of objects and [body] a
    method of theirs: each object is visited once, in order, and may be
    mutated by the call; an exception stops the traversal. The objects of
    the list are distinct, as those an [Atom] creates for itself are. *)
Fixpoint map_each {E A} (body : M E A) (l : list E) : result (list A) * list E :=
  match l with
  | [] => (Ok [], [])
  | e :: l' =>
      match body e with
      | (Ok a, e') =>
          match map_each body l' with
          | (Ok r, l'') => (Ok (a :: r), e' :: l'')
          | (Raise x, l'') => (Raise x, e' :: l'')
          end
      | (Raise x, e') => (Raise x, e' :: l')
      end
  end.

(** [for e in l: body(e)]: the same traversal, results dropped. *)
Definition for_each {E} (body : M E unit) : M (list E) unit :=
  fun l => let '(r, l') := map_each body l in
           (match r with Ok _ => Ok tt | Raise x => Raise x end, l').

(** [try: c  except Exception as exc: handler(exc)]. *)
Definition try_except {S A} (c : M S A) (handler : exn -> M S A) : M S A :=
  fun s =>
    match c s with
    | (Raise e, s') => if is_Exception e then handler e s' else (Raise e, s')
    | ok => ok
    end.

(** [for x in l: out.append(f(x))] for a fresh list [out]: the results in
    order; the first exception ends the loop. *)
Fixpoint map_result {A B} (f : A -> result B) (l : list A) : result (list B) :=
  match l with
  | [] => Ok []
  | x :: l' =>
      match f x with
      | Raise e => Raise e
      | Ok y =>
          match map_result f l' with
          | Raise e => Raise e
          | Ok r => Ok (y :: r)
          end
      end
  end.

Definition range (n : nat) : list Z := map Z.of_nat (seq 0 n).

(** [str(n)] and [f"{n}"] for an [int]: its decimal digits, after a [-]
    when it is negative. CPython refuses to write an [int] of more than
    [sys.get_int_max_str_digits()] digits, 4300 unless the interpreter is
    configured otherwise, and raises [ValueError]. *)
Definition int_max_str_digits : Z := 4300.

Definition str_of_int (n : Z) : result string :=
  if Z.abs n <? 10 ^ int_max_str_digits then Ok (pretty n) else Raise ValueError.

(** [float(n)] for an [int]: the nearest binary64 (ties to even), and
    [OverflowError] when that would be an infinity. *)
Definition float_of_int (n : Z) : result float :=
  let f := SF2Prim (binary_normalize prec emax n 0 false) in
  if is_infinity f then Raise OverflowError else Ok f.

(** Arithmetic between an [int] and a [float] converts the [int] first. *)
Definition int_mul_float (n : Z) (x : float) : result float :=
  match float_of_int n with
  | Ok f => Ok (f * x)%float
  | Raise e => Raise e
  end.
Definition float_mul_int (x : float) (n : Z) : result float :=
  match float_of_int n with
  | Ok f => Ok (x * f)%float
  | Raise e => Raise e
  end.
Definition float_div_int (x : float) (n : Z) : result float :=
  match float_of_int n with
  | Ok f => if (f =? 0)%float then Raise ZeroDivisionError else Ok (x / f)%float
  | Raise e => Raise e
  end.

(** C's [fmod]: the exact remainder [x - n*y], [n] being [x/y] truncated
    towards zero; it has the sign of [x] and is smaller than [y] in
    magnitude. Both operands are aligned to the smaller exponent and the
    remainder is taken on the integer mantissas. *)
Definition SFfmod (x y : spec_float) : spec_float :=
  match x, y with
  | S754_nan, _ | _, S754_nan => S754_nan
  | S754_infinity _, _ => S754_nan
  | _, S754_zero _ => S754_nan
  | S754_zero _, _ => x
  | S754_finite _ _ _, S754_infinity _ => x
  | S754_finite sx mx ex, S754_finite _ my ey =>
      let ez := Z.min ex ey in
      let X := Zpos (fst (shl_align mx ex ez)) in
      let Y := Zpos (fst (shl_align my ey ez)) in
      match Z.rem X Y with
      | Z0 => S754_zero sx
      | R => binary_normalize prec emax (cond_Zopp sx R) ez sx
      end
  end.

Definition fmod (x y : float) : float := SF2Prim (SFfmod (Prim2SF x) (Prim2SF y)).

(** [x % y] on floats (CPython's [float_rem]): [fmod], then the remainder
    is given the sign of the divisor. *)
Definition float_rem (vx wx : float) : result float :=
  if (wx =? 0)%float then Raise ZeroDivisionError
  else
    let mod_ := fmod vx wx in
    if negb (mod_ =? 0)%float then
      if negb (Bool.eqb (wx <? 0)%float (mod_ <? 0)%float)
      then Ok (mod_ + wx)%float
      else Ok mod_
    else Ok (if (wx <? 0)%float then neg_zero else zero).

(** The C library's [cos] and [sin], which the program reaches through the
    [math] module. They are not specified bit for bit; the development is
    parametric in them. *)
Class Libm : Type := {
  libm_cos : float -> float;
  libm_sin : float -> float
}.

(** [math.cos] and [math.sin] raise [ValueError] ("math domain error") on
    an infinite argument, and return NaN on NaN. *)
Definition math_cos {libm : Libm} (x : float) : result float :=
  if is_infinity x then Raise ValueError else Ok (libm_cos x).
Definition math_sin {libm : Libm} (x : float) : result float :=
  if is_infinity x then Raise ValueError else Ok (libm_sin x).

Definition math_pi : float := 0x1.921fb54442d18p+1%float.

End Py.

Import Py.
#[local] Open Scope py_scope.

(** ** The program *)

Definition ATOM_NAME : string := "Oxygène".
(** The module constant [Z], the atomic number. *)
Definition Z_ : Z := 8.
Definition ELECTRON_CONFIGURATION : list (Z * Z) := [(1, 2); (2, 6)].

(** *** class Electron *)

Record Electron : Type := mkElectron {
  shell : Z;
  angle : float;
  speed : float
}.

Definition set_angle (a : float) (self : Electron) : Electron :=
  {| shell := shell self; angle := a; speed := speed self |}.

(** [Electron(shell, angle, speed)]; the program always passes the three. *)
Definition Electron_init (shell : Z) (angle speed : float) : Electron :=
  {| shell := shell; angle := angle; speed := speed |}.

(** [self.angle = (self.angle + self.speed * dt) % (2 * math.pi)] *)
Definition Electron_step (dt : float) : M Electron unit :=
  self <- get ;;
  two_pi <- lift (int_mul_float 2 math_pi) ;;
  a <- lift (float_rem (angle self + speed self * dt)%float two_pi) ;;
  put (set_angle a self).

Section Position.
Context {libm : Libm}.

Definition Electron_position (radius_scale : float) : M Electron (float * float) :=
  self <- get ;;
  r <- lift (int_mul_float (shell self) radius_scale) ;;
  c <- lift (math_cos (angle self)) ;;
  let x := (r * c)%float in
  s <- lift (math_sin (angle self)) ;;
  let y := (r * s)%float in
  ret (x, y).

End Position.

(** *** class Atom *)

Record Atom : Type := mkAtom {
  atom_Z : Z;
  electrons : list Electron
}.

Definition set_electrons (l : list Electron) (self : Atom) : Atom :=
  {| atom_Z := atom_Z self; electrons := l |}.

Definition electrons_append (e : Electron) : M Atom unit :=
  self <- get ;; put (set_electrons (electrons self ++ [e]) self).

Definition electrons_clear : M Atom unit :=
  self <- get ;; put (set_electrons [] self).

Definition Atom_populate_electrons : M Atom unit :=
  electrons_clear ;;;
  for_in (range 2) (fun i =>
    two_pi <- lift (int_mul_float 2 math_pi) ;;
    t <- lift (float_mul_int two_pi i) ;;
    angle <- lift (float_div_int t 2) ;;
    k <- lift (int_mul_float (i mod 2) 0.02) ;;
    let speed := (0.12 + k)%float in
    electrons_append (Electron_init 1 angle speed)) ;;;
  for_in (range 6) (fun i =>
    two_pi <- lift (int_mul_float 2 math_pi) ;;
    t <- lift (float_mul_int two_pi i) ;;
    angle <- lift (float_div_int t 6) ;;
    k <- lift (int_mul_float (i mod 3) 0.01) ;;
    let speed := (0.07 + k)%float in
    electrons_append (Electron_init 2 angle speed)).

(** [Atom(Z)]: the constructor's outcome and the object it built. *)
Definition Atom_init (Z : Z) : result unit * Atom :=
  Atom_populate_electrons {| atom_Z := Z; electrons := [] |}.

Definition Atom_step (dt : float) : M Atom unit :=
  zoom electrons set_electrons (for_each (Electron_step dt)).

(** [shell_counts[e.shell] = shell_counts.get(e.shell, 0) + 1] for each
    electron: a dict from shell number to count. *)
Definition tally_shell (shell_counts : gmap Z Z) (e : Electron) : gmap Z Z :=
  <[shell e := default 0 (shell_counts !! shell e) + 1]> shell_counts.

Definition shell_counts_of (l : list Electron) : gmap Z Z :=
  fold_left tally_shell l ∅.

(** [sorted(d)]: the keys of a dict in ascending order. *)
Definition sorted_keys (d : gmap Z Z) : list Z :=
  merge_sort Z.le ((map_to_list d).*1).

Definition newline : string := String (ascii_of_nat 10) EmptyString.

(** [f"  couche {shell}: {shell_counts[shell]} électrons"] *)
Definition shell_line (shell_counts : gmap Z Z) (shell : Z) : result string :=
  match str_of_int shell with
  | Raise e => Raise e
  | Ok s =>
      match str_of_int (shell_counts !!! shell) with
      | Raise e => Raise e
      | Ok c => Ok ("  couche " +:+ s +:+ ": " +:+ c +:+ " électrons")
      end
  end.

(** The f-strings are evaluated in the order of the lines; an [int] too
    long to be written makes the call raise, the atom being as it was. *)
Definition Atom_summary : M Atom string :=
  self <- get ;;
  let lines := [] in
  z <- lift (str_of_int (atom_Z self)) ;;
  let lines := lines ++ ["Atome : " +:+ ATOM_NAME +:+ " (Z=" +:+ z +:+ ")"] in
  let lines := lines ++ ["Configuration (approx.): 1s2 2s2 2p4 -> total 8 électrons"] in
  n <- lift (str_of_int (Z.of_nat (length (electrons self)))) ;;
  let lines := lines ++ ["Nombre d'électrons: " +:+ n] in
  let shell_counts := shell_counts_of (electrons self) in
  shell_lines <- lift (map_result (shell_line shell_counts) (sorted_keys shell_counts)) ;;
  let lines := lines ++ shell_lines in
  ret (String.concat newline lines).

Section Positions.
Context {libm : Libm}.

Definition Atom_positions (radius_scale : float) : M Atom (list (float * float)) :=
  zoom electrons set_electrons (map_each (Electron_position radius_scale)).

End Positions.

(** *** The two modes and [main] *)

(** What the process writes: the lines sent to [sys.stdout] and to
    [sys.stderr], oldest first. *)
Record Streams : Type := mkStreams {
  stdout : list string;
  stderr : list string
}.

(** A running process: the atom [main] created, and its streams. *)
Record Process : Type := mkProcess {
  atom : Atom;
  io : Streams
}.

Definition set_atom (a : Atom) (p : Process) : Process :=
  {| atom := a; io := io p |}.
Definition set_io (s : Streams) (p : Process) : Process :=
  {| atom := atom p; io := s |}.

Definition print (line : string) : M Process unit :=
  zoom io set_io
    (s <- get ;; put {| stdout := stdout s ++ [line]; stderr := stderr s |}).

Definition print_stderr (line : string) : M Process unit :=
  zoom io set_io
    (s <- get ;; put {| stdout := stdout s; stderr := stderr s ++ [line] |}).

(** [f"{x:.3f}"] is the C library's decimal conversion of a double; the
    development is parametric in it. *)
Class Formatter : Type := {
  format_3f : float -> string
}.

(** [f"{i:02d}"], for the indices [run_print] numbers the positions with:
    they do not exceed the number of electrons, which [summary] has
    written before. *)
Definition format_02d (i : Z) : string :=
  if (0 <=? i) && (i <? 10) then "0" +:+ pretty i else pretty i.

(** [enumerate(l, start)] *)
Fixpoint enumerate {A} (l : list A) (start : Z) : list (Z * A) :=
  match l with
  | [] => []
  | x :: l' => (start, x) :: enumerate l' (start + 1)
  end.

(** The plotting library, as [run_animate] meets it: whether the two
    [import] statements succeed, whether building the figure succeeds, how
    many frames the event loop of [plt.show()] draws (each one a call of
    [update]), and how [plt.show()] ends after them. A failure of the
    library inside a frame is a way for [plt.show()] to end. *)
Record Matplotlib : Type := mkMatplotlib {
  import_result : result unit;
  setup_result : result unit;
  frames_drawn : nat;
  show_result : result unit
}.

(** The parsed command line: [args.animate] and [args.do_print]. *)
Record Namespace : Type := mkNamespace {
  animate : bool;
  do_print : bool
}.

Section Main.
Context {libm : Libm} {formatter : Formatter}.
Variable matplotlib : Matplotlib.

Definition position_line (ixy : Z * (float * float)) : string :=
  let '(i, (x, y)) := ixy in
  "  e" +:+ format_02d i +:+ ": (" +:+ format_3f x +:+ ", " +:+ format_3f y +:+ ")".

Definition run_print : M Process unit :=
  s <- zoom atom set_atom Atom_summary ;;
  print s ;;;
  print "Positions initiales (x, y) :" ;;;
  ps <- zoom atom set_atom (Atom_positions 1.5) ;;
  for_in (enumerate ps 1) (fun ixy => print (position_line ixy)).

(** The closure [update(frame)]: [atom.step(dt=1)], then the positions are
    handed to the scatter plot. The [int] 1 becomes a float where
    [Electron.step] multiplies by it. *)
Definition update : M Process unit :=
  dt <- lift (float_of_int 1) ;;
  zoom atom set_atom (Atom_step dt) ;;;
  pos <- zoom atom set_atom (Atom_positions 1.5) ;;
  ret tt.

Definition run_animate : M Process unit :=
  try_except (lift (import_result matplotlib))
    (fun exc =>
       print_stderr "matplotlib requis pour l'animation. Installez-le via 'pip install matplotlib'" ;;;
       raise exc) ;;;
  lift (setup_result matplotlib) ;;;
  for_in (seq 0 (frames_drawn matplotlib)) (fun frame => update) ;;;
  lift (show_result matplotlib).

(** [main], from the parsed arguments on. The [return 2] of the handler and
    the [return 0] after the [try] are the two ends of one expression. *)
Definition main (args : Namespace) : M Streams Z :=
  fun s =>
    match Atom_init Z_ with
    | (Raise e, _) => (Raise e, s)
    | (Ok _, a) =>
        let body : M Process Z :=
          if do_print args then
            run_print ;;; ret 0
          else if animate args then
            try_except (run_animate ;;; ret 0) (fun _ => ret 2)
          else
            run_print ;;; ret 0 in
        let '(r, p) := body {| atom := a; io := s |} in
        (r, io p)
    end.

End Main.

(** ** Vocabulary of the properties *)

(** [2 * math.pi], the value [Electron.step] reduces by. *)
Definition two_pi : float := Eval vm_compute in (2 * math_pi)%float.

(** Its mantissa; its exponent is [-50]. *)
Definition two_pi_m : positive := 7074237752028440.

(** [below s r B eb]: [r] is a valid float of sign [s] whose magnitude is
    at most that of the valid float of mantissa [B] and exponent [eb]. *)
Definition below (s : bool) (r : spec_float) (B : positive) (eb : Z) : Prop :=
  r = S754_zero s \/
  exists m e, r = S754_finite s m e /\ SpecFloat.bounded prec emax m e = true /\
              (e < eb \/ (e = eb /\ Zpos m <= Zpos B)).

(** Non-negative, or not a number. *)
Definition nonneg_or_nan (x : spec_float) : Prop :=
  match x with
  | S754_nan | S754_zero _ | S754_infinity false | S754_finite false _ _ => True
  | _ => False
  end.

(** The binary64 nearest to an integer, where the conversion cannot fail. *)
Definition float_of_Z (n : Z) : float := SF2Prim (binary_normalize prec emax n 0 false).

(** [0 <= angle < 2π], with Python's comparisons. *)
Definition normalized (e : Electron) : bool :=
  (0 <=? angle e)%float && (angle e <? two_pi)%float.

(** [0 <= angle <= 2π]. *)
Definition within_turn (e : Electron) : bool :=
  (0 <=? angle e)%float && (angle e <=? two_pi)%float.

(** [e.step(dt)] for each [dt] of a list, in order. *)
Definition Electron_steps (dts : list float) : M Electron unit :=
  for_in dts Electron_step.

(** Every [dt] of the run is non-negative and no advance
    [angle + speed * dt] overflows. *)
Fixpoint admissible (e : Electron) (dts : list float) : bool :=
  match dts with
  | [] => true
  | dt :: dts' =>
      (0 <=? dt)%float && (angle e + speed e * dt <? infinity)%float
      && admissible (snd (Electron_step dt e)) dts'
  end.

(** Electron 1: the first shell-1 electron of a freshly built atom. *)
Definition electron_1 : Electron := {| shell := 1; angle := 0; speed := 0.12 |}.

(** The state of an electron after [n] calls of [step(1.0)]. *)
Definition after_unit_steps (n : nat) (e : Electron) : Electron :=
  Nat.iter n (fun e => snd (Electron_step 1 e)) e.

(** Distance of an angle to the angle [start], around the circle. *)
Definition turn_distance (a start : float) : float :=
  let d := abs (a - start) in
  if (d <=? two_pi - d)%float then d else (two_pi - d)%float.

(** During the next [n] calls of [step(1.0)] the angle stays more than
    [tol] away from [start], around the circle. *)
Fixpoint stays_away (tol start : float) (n : nat) (e : Electron) : bool :=
  match n with
  | O => true
  | S n' =>
      let e' := snd (Electron_step 1 e) in
      (tol <? turn_distance (angle e') start)%float && stays_away tol start n' e'
  end.

(** One call [step(2π / speed)], a revolution at the electron's own speed,
    ends within [tol] of where it started, around the circle. *)
Definition revolution_within (tol : float) (e : Electron) : bool :=
  (turn_distance (angle (snd (Electron_step (2 * math_pi / speed e) e))) (angle e)
   <=? tol)%float.


(** An electron that [position] can be computed for: its angle is not an
    infinity and its shell is one of the two shells of the atom. *)
Definition renderable (e : Electron) : bool :=
  negb (is_infinity (angle e)) && ((shell e =? 1) || (shell e =? 2)).

(** What can be called on an [Atom] once it is built. *)
Inductive Op : Type :=
  | OpStep (dt : float)
  | OpPositions (radius_scale : float)
  | OpSummary
  | OpPopulate.

Section Reachable.
Context {libm : Libm}.

Definition exec (o : Op) (a : Atom) : Atom :=
  match o with
  | OpStep dt => snd (Atom_step dt a)
  | OpPositions radius_scale => snd (Atom_positions radius_scale a)
  | OpSummary => snd (Atom_summary a)
  | OpPopulate => snd (Atom_populate_electrons a)
  end.

Definition run (ops : list Op) (a : Atom) : Atom :=
  fold_left (fun a o => exec o a) ops a.

(** The states an [Atom] object goes through: built by [Atom(Z)], then
    changed by its methods only. *)
Definition reachable (a : Atom) : Prop :=
  exists Z ops, a = run ops (snd (Atom_init Z)).

(** The pair [position] returns, written with total operations. *)
Definition position_of (radius_scale : float) (e : Electron) : float * float :=
  ((radius_scale * float_of_Z (shell e)) * libm_cos (angle e),
   (radius_scale * float_of_Z (shell e)) * libm_sin (angle e))%float.

(** The pair of the specification,
    [(radiusScale·shell·cos(angle), radiusScale·shell·sin(angle))],
    evaluated left to right as Python evaluates a tuple. *)
Definition position_spec (radius_scale : float) (e : Electron) : result (float * float) :=
  match float_mul_int radius_scale (shell e) with
  | Raise x => Raise x
  | Ok rx =>
      match math_cos (angle e) with
      | Raise x => Raise x
      | Ok c =>
          match float_mul_int radius_scale (shell e) with
          | Raise x => Raise x
          | Ok ry =>
              match math_sin (angle e) with
              | Raise x => Raise x
              | Ok s => Ok ((rx * c)%float, (ry * s)%float)
              end
          end
      end
  end.

End Reachable.

(** Number of electrons of an atom on a given shell. *)
Definition electrons_on_shell (n : Z) (a : Atom) : nat :=
  length (List.filter (fun e => shell e =? n) (electrons a)).

(** The initial conditions of the specification: electron [i] of a shell
    holding [count] electrons starts at [2π·i/count], with speed
    [base + (i mod period)×incr]. *)
Definition initial_angle (count i : Z) : float :=
  (2 * math_pi * float_of_Z i / float_of_Z count)%float.

Definition initial_speed (base : float) (period : Z) (incr : float) (i : Z) : float :=
  (base + float_of_Z (i mod period) * incr)%float.

Definition initial_electrons : list Electron :=
  List.map (fun i => mkElectron 1 (initial_angle 2 i) (initial_speed 0.12 2 0.02 i)) (range 2)
  ++ List.map (fun i => mkElectron 2 (initial_angle 6 i) (initial_speed 0.07 3 0.01 i)) (range 6).

(** The shells of the eight electrons, in the order of the sequence. *)
Definition initial_shells : list Z := [1; 1; 2; 2; 2; 2; 2; 2].

(** The text [summary()] gives for the default atom. *)
Definition default_summary : string :=
  String.concat newline
    ["Atome : Oxygène (Z=8)";
     "Configuration (approx.): 1s2 2s2 2p4 -> total 8 électrons";
     "Nombre d'électrons: 8";
     "  couche 1: 2 électrons";
     "  couche 2: 6 électrons"].

(** A stand-in for the C library where an example has to be evaluated: the
    second-order approximations of [cos] and [sin] around 0. *)
Definition libm_small_angle : Libm :=
  {| libm_cos := fun x => (1 - x * x / 2)%float; libm_sin := fun x => x |}.

(** A stand-in for the decimal conversion, for the same purpose. *)
Definition formatter_blank : Formatter := {| format_3f := fun _ => "?.???" |}.

(** The diagnostic [run_animate] writes when the import fails. *)
Definition matplotlib_required : string :=
  "matplotlib requis pour l'animation. Installez-le via 'pip install matplotlib'".

Section PrintOutput.
Context {libm : Libm} {formatter : Formatter}.

(** What print mode writes for a fresh default atom. *)
Definition print_output : list string :=
  default_summary :: "Positions initiales (x, y) :" ::
  List.map position_line
           (enumerate (List.map (position_of 1.5) initial_electrons) 1).

End PrintOutput.

(** Position of the first occurrence of a substring, if any. *)
Definition find (needle haystack : string) : option nat := String.index 0 needle haystack.

(** The lines of a text. *)
Fixpoint lines_from (acc : string) (s : string) : list string :=
  match s with
  | EmptyString => [String.rev acc]
  | String c s' =>
      if Ascii.eqb c (ascii_of_nat 10) then String.rev acc :: lines_from EmptyString s'
      else lines_from (String c acc) s'
  end.
Definition splitlines (s : string) : list string := lines_from EmptyString s.

Definition is_shell_line (l : string) : bool := String.prefix "  couche " l.

(** *** Vocabulary of the further properties *)

(** [magnitude m e <= k] says that the float of mantissa [m] and exponent
    [e] is below [2^k]. *)
Definition magnitude (m : positive) (e : Z) : Z := Z.log2 (Zpos m) + 1 + e.

(** Zero, or a valid float of sign [s] below [2^k]. *)
Definition small (s : bool) (k : Z) (r : spec_float) : Prop :=
  (exists s', r = S754_zero s') \/
  exists m e, r = S754_finite s m e /\ SpecFloat.bounded prec emax m e = true /\
              magnitude m e <= k.

(** An electron as a run of bounded steps keeps it: the angle reduced, the
    speed between 0 and 1 radian per frame. *)
Definition well_formed (e : Electron) : bool :=
  normalized e && (0 <=? speed e)%float && (speed e <=? 1)%float.

(** A call whose [dt], if it has one, lies between 0 and [1e300]. *)
Definition bounded_op (o : Op) : bool :=
  match o with
  | OpStep dt => (0 <=? dt)%float && (dt <=? 1e300)%float
  | _ => true
  end.

(** The shell of the electron is an [int] that [float] can convert. *)
Definition convertible (e : Electron) : bool :=
  match float_of_int (shell e) with
  | Ok _ => true
  | Raise _ => false
  end.

(** An electron [position] returns for: its shell converts to a float and
    its angle is not an infinity. *)
Definition placeable (e : Electron) : bool :=
  convertible e && negb (is_infinity (angle e)).

(** An [int] that can be written in decimal: at most 4300 digits. *)
Definition printable (n : Z) : bool := Z.abs n <? 10 ^ int_max_str_digits.

(** The three lines [summary()] starts with. *)
Definition summary_header (a : Atom) : list string :=
  ["Atome : " +:+ ATOM_NAME +:+ " (Z=" +:+ pretty (atom_Z a) +:+ ")";
   "Configuration (approx.): 1s2 2s2 2p4 -> total 8 électrons";
   "Nombre d'électrons: " +:+ pretty (Z.of_nat (length (electrons a)))].

(** The line of [summary()] for shell [n], with the number of electrons of
    the atom on that shell. *)
Definition shell_line_of (a : Atom) (n : Z) : string :=
  "  couche " +:+ pretty n +:+ ": " +:+ pretty (Z.of_nat (electrons_on_shell n a))
    +:+ " électrons".

(** An electron whose shell is too large an [int] for a float, and whose
    angle is an infinity. *)
Definition electron_out_of_range : Electron :=
  {| shell := 2 ^ 1024; angle := infinity; speed := 0.05 |}.

(** An electron created at an infinite angle, and an atom that was given
    it in place of its second electron. *)
Definition electron_at_infinity : Electron :=
  {| shell := 1; angle := infinity; speed := 0.05 |}.

Definition atom_with_stray_electron : Atom :=
  {| atom_Z := 8;
     electrons := electron_1 :: electron_at_infinity :: List.skipn 2 initial_electrons |}.

(** An atom built with an atomic number of 4301 digits. *)
Definition atom_of_long_Z : Atom := snd (Atom_init (10 ^ 4300)).


(** ** The numeric model on sample values

    The right-hand sides are what CPython prints for the same expressions
    ([7.5 % (2*math.pi)], [float(12345678901234567890123)], ...). *)

Example float_rem_samples :
  float_rem 7.5 two_pi = Ok 1.2168146928204138%float /\
  float_rem (-7.5) two_pi = Ok 5.0663706143591725%float /\
  float_rem 1e300 two_pi = Ok 5.559758606652565%float /\
  float_rem (-1e-20) two_pi = Ok 6.283185307179586%float /\
  float_rem 6.5 (-0.7) = Ok (-0.49999999999999956)%float /\
  float_rem 5e-324 two_pi = Ok 5e-324%float /\
  float_rem 1 0 = Raise ZeroDivisionError.
Proof. vm_compute. repeat split; reflexivity. Qed.

Example float_of_int_samples :
  float_of_int 12345678901234567890123 = Ok 1.2345678901234568e+22%float /\
  float_of_int (2 ^ 1024 - 2 ^ 970 - 1) = Ok 1.7976931348623157e+308%float /\
  float_of_int (2 ^ 1024 - 2 ^ 970) = Raise OverflowError.
Proof. vm_compute. repeat split; reflexivity. Qed.

(** ** Facts on binary64 rounding *)

Lemma fexp_eq e : SpecFloat.fexp prec emax e = Z.max (e - 53) (-1074).
Proof. reflexivity. Qed.

Lemma digits2_pos_size p : digits2_pos p = Pos.size p.
Proof. induction p; simpl; congruence. Qed.

Lemma Zdigits2_log2 p : Zdigits2 (Zpos p) = Z.log2 (Zpos p) + 1.
Proof.
  simpl. rewrite digits2_pos_size. destruct p; simpl; lia.
Qed.

Lemma digits2_pos_log2 p : Zpos (digits2_pos p) = Z.log2 (Zpos p) + 1.
Proof. exact (Zdigits2_log2 p). Qed.

(** [2^(k-1) <= x < 2^k] pins the number of digits. *)
Lemma log2_bounds x : 0 < x -> 2 ^ Z.log2 x <= x < 2 ^ (Z.log2 x + 1).
Proof. intros Hx. apply Z.log2_spec. exact Hx. Qed.

Lemma bounded_spec m e :
  SpecFloat.bounded prec emax m e = true <->
  Z.max (Z.log2 (Zpos m) + 1 + e - 53) (-1074) = e /\ e <= 971.
Proof.
  unfold SpecFloat.bounded, canonical_mantissa.
  rewrite andb_true_iff, Z.eqb_eq, Z.leb_le, fexp_eq, digits2_pos_log2.
  change (emax - prec) with 971. reflexivity.
Qed.

Lemma iter_xO m d : Zpos (Pos.iter xO m d) = Zpos m * 2 ^ Zpos d.
Proof.
  induction d as [|d IH] using Pos.peano_ind.
  - simpl. lia.
  - rewrite Pos.iter_succ, Pos2Z.inj_succ, Z.pow_succ_r by lia.
    rewrite Pos2Z.inj_xO, IH. ring.
Qed.

Lemma shl_align_spec mx ex ex' :
  ex' <= ex ->
  exists m, shl_align mx ex ex' = (m, ex') /\ Zpos m = Zpos mx * 2 ^ (ex - ex').
Proof.
  intros Hle. unfold shl_align.
  destruct (ex' - ex) as [|d|d] eqn:Hd; try lia.
  - exists mx. replace ex' with ex by lia. rewrite Z.sub_diag. split; [reflexivity|]. simpl; lia.
  - exists (Pos.iter xO mx d). split; [reflexivity|].
    rewrite iter_xO. f_equal. f_equal. lia.
Qed.

Lemma shl_align_ge mx ex ex' : ex <= ex' -> shl_align mx ex ex' = (mx, ex).
Proof.
  intros Hle. unfold shl_align. destruct (ex' - ex) eqn:Hd; try reflexivity; lia.
Qed.

Lemma iter_pos_nat {A} (f : A -> A) n x :
  SpecFloat.iter_pos f n x = Nat.iter (Pos.to_nat n) f x.
Proof.
  revert x. induction n as [n IH|n IH|]; intros x; simpl SpecFloat.iter_pos.
  - rewrite !IH, Pos2Nat.inj_xI. 
    replace (S (2 * Pos.to_nat n))%nat with (Pos.to_nat n + (Pos.to_nat n + 1))%nat by lia.
    rewrite !Nat.iter_add. simpl. reflexivity.
  - rewrite !IH, Pos2Nat.inj_xO.
    replace (2 * Pos.to_nat n)%nat with (Pos.to_nat n + Pos.to_nat n)%nat by lia.
    rewrite Nat.iter_add. reflexivity.
  - reflexivity.
Qed.

Lemma shr_1_m mrs : 0 <= shr_m mrs -> shr_m (shr_1 mrs) = Z.div2 (shr_m mrs).
Proof. destruct mrs as [[|[p|p|]|p] r s]; simpl; try reflexivity; lia. Qed.

Lemma shr_iter_m k mrs :
  0 <= shr_m mrs -> shr_m (Nat.iter k shr_1 mrs) = shr_m mrs / 2 ^ Z.of_nat k.
Proof.
  intros Hm. induction k as [|k IH].
  - simpl. rewrite Z.div_1_r. reflexivity.
  - change (Nat.iter (S k) shr_1 mrs) with (shr_1 (Nat.iter k shr_1 mrs)).
    rewrite shr_1_m; rewrite IH.
    + rewrite Z.div2_div, Nat2Z.inj_succ, Z.pow_succ_r by lia.
      rewrite Z.div_div by lia. f_equal. lia.
    + apply Z.div_pos; lia.
Qed.

Lemma shr_spec m l e n :
  0 <= m -> 0 <= n ->
  exists mrs, shr (shr_record_of_loc m l) e n = (mrs, e + n) /\ shr_m mrs = m / 2 ^ n.
Proof.
  intros Hm Hn.
  assert (Hrec : shr_m (shr_record_of_loc m l) = m) by (destruct l as [|[]]; reflexivity).
  destruct n as [|n|n]; try lia.
  - exists (shr_record_of_loc m l). simpl. rewrite Z.add_0_r, Z.div_1_r. auto.
  - exists (SpecFloat.iter_pos shr_1 n (shr_record_of_loc m l)). split; [reflexivity|].
    rewrite iter_pos_nat, shr_iter_m, Hrec, positive_nat_Z by lia. reflexivity.
Qed.

Lemma round_nearest_even_bounds m l :
  m <= round_nearest_even m l <= m + 1.
Proof.
  destruct l as [|[]]; simpl; try lia. destruct (Z.even m); lia.
Qed.



Lemma div_pow2_digits p n :
  0 <= n ->
  let m1 := Zpos p / 2 ^ n in
  (m1 = 0 /\ Z.log2 (Zpos p) < n) \/ (0 < m1 /\ Z.log2 m1 = Z.log2 (Zpos p) - n).
Proof.
  intros Hn m1. subst m1. rewrite <- Z.shiftr_div_pow2 by lia.
  destruct (Z_lt_le_dec (Z.log2 (Zpos p)) n) as [Hlt|Hge].
  - left. split; [|exact Hlt]. apply Z.shiftr_eq_0; lia.
  - right. assert (H0 : 0 < Z.shiftr (Zpos p) n).
    { rewrite Z.shiftr_div_pow2 by lia. apply Z.div_str_pos. split; [lia|].
      apply Z.le_trans with (2 ^ Z.log2 (Zpos p)).
      - apply Z.pow_le_mono_r; lia.
      - apply (log2_bounds (Zpos p)); lia. }
    split; [exact H0|]. rewrite Z.log2_shiftr by lia. lia.
Qed.

Lemma binary_round_aux_below s p e B eb :
  e <= SpecFloat.fexp prec emax (Zdigits2 (Zpos p) + e) ->
  SpecFloat.bounded prec emax B eb = true ->
  e <= eb ->
  Zpos p < Zpos B * 2 ^ (eb - e) ->
  below s (binary_round_aux prec emax s (Zpos p) e loc_Exact) B eb.
Proof.
  intros Hcan HB Hle Hlt.
  apply bounded_spec in HB. destruct HB as [HBc HBe].
  unfold binary_round_aux, shr_fexp.
  rewrite Zdigits2_log2, fexp_eq in *.
  set (d := Z.log2 (Zpos p) + 1) in *.
  set (f := Z.max (d + e - 53) (-1074)) in *.
  assert (Ed : d = Z.log2 (Zpos p) + 1) by reflexivity.
  assert (Ef : f = Z.max (d + e - 53) (-1074)) by reflexivity.
  clearbody f. clearbody d.
  pose proof (log2_bounds (Zpos p) ltac:(lia)) as Hp.
  pose proof (log2_bounds (Zpos B) ltac:(lia)) as HBb.
  assert (Hf : f <= eb).
  { assert (Hd : d - 1 < Z.log2 (Zpos B) + 1 + (eb - e)).
    { pose proof (Z.log2_nonneg (Zpos B)).
      apply (Z.pow_lt_mono_r_iff 2); [lia|lia|].
      replace (d - 1) with (Z.log2 (Zpos p)) by lia.
      apply Z.le_lt_trans with (Zpos p); [apply Hp|].
      apply Z.lt_trans with (Zpos B * 2 ^ (eb - e)); [exact Hlt|].
      rewrite Z.pow_add_r by lia. apply Z.mul_lt_mono_pos_r; [|apply HBb].
      apply Z.pow_pos_nonneg; lia. }
    lia. }
  destruct (shr_spec (Zpos p) loc_Exact e (f - e)) as (mrs1 & E1 & Hm1); [lia|lia|].
  rewrite E1. replace (e + (f - e)) with f by lia.
  pose proof (round_nearest_even_bounds (shr_m mrs1) (loc_of_shr_record mrs1)) as Hr.
  set (m2 := round_nearest_even (shr_m mrs1) (loc_of_shr_record mrs1)) in *.
  set (m1 := shr_m mrs1) in *. clearbody m1.
  assert (Hm1B : m1 < Zpos B * 2 ^ (eb - f)).
  { rewrite Hm1. apply Z.div_lt_upper_bound; [apply Z.pow_pos_nonneg; lia|].
    replace (2 ^ (f - e) * (Zpos B * 2 ^ (eb - f))) with (Zpos B * 2 ^ (eb - e)); [exact Hlt|].
    replace (eb - e) with ((f - e) + (eb - f)) by lia.
    rewrite Z.pow_add_r by lia. ring. }
  assert (Hdig : (m1 = 0 /\ f = -1074) \/
                 (0 < m1 /\ Z.max (Z.log2 m1 + 1 + f - 53) (-1074) = f)).
  { destruct (div_pow2_digits p (f - e) ltac:(lia)) as [[H0 Hl]|[H0 Hl]];
      rewrite <- Hm1 in *; [left|right]; split; try assumption; lia. }
  destruct m2 as [|q|q] eqn:Em2; [| |lia].
  - (* the rounded mantissa is zero *)
    left. assert (f = -1074) by lia.
    replace (SpecFloat.fexp prec emax (Zdigits2 0 + f) - f) with 0
      by (rewrite fexp_eq; simpl Zdigits2; lia).
    reflexivity.
  - rewrite Zdigits2_log2, fexp_eq.
    pose proof (log2_bounds (Zpos q) ltac:(lia)) as Hq.
    set (d2 := Z.log2 (Zpos q) + 1) in *.
    assert (Ed2 : d2 = Z.log2 (Zpos q) + 1) by reflexivity. clearbody d2.
    assert (Hd2 : Z.max (d2 + f - 53) (-1074) - f = 0 \/
                  (Z.max (d2 + f - 53) (-1074) - f = 1 /\ d2 = 54 /\ Zpos q = 2 ^ 53)).
    { destruct Hdig as [[H0 Hfm]|[H0 Hfm]].
      - left. assert (q = 1%positive) by lia. subst q. simpl in Ed2. lia.
      - assert (Hl1 : Z.log2 m1 <= Z.log2 (Zpos q)) by (apply Z.log2_le_mono; lia).
        assert (Hl2 : Z.log2 (Zpos q) <= Z.log2 m1 + 1).
        { apply Z.le_trans with (Z.log2 (Z.succ m1)); [apply Z.log2_le_mono; lia|].
          apply Z.log2_succ_le. }
        destruct (Z.eq_dec (Z.log2 (Zpos q)) (Z.log2 m1)) as [Heq|Hne]; [left; lia|].
        destruct (Z_le_gt_dec (d2 + f - 53) (-1074)) as [Hs|Hs]; [left; lia|].
        right. assert (Hd54 : d2 = 54) by lia. split; [lia|]. split; [exact Hd54|].
        pose proof (log2_bounds m1 H0) as Hm1b.
        assert (Z.log2 m1 = 52) by lia.
        assert (Z.log2 (Zpos q) = 53) by lia.
        replace (Z.log2 m1 + 1) with 53 in Hm1b by lia.
        replace (Z.log2 (Zpos q)) with 53 in Hq by lia.
        lia. }
    destruct Hd2 as [Hn2|(Hn2 & Hd54 & Hq53)]; rewrite Hn2.
    + right. exists q, f. simpl shr. cbn [shr_m shr_record_of_loc fst snd].
      replace (f <=? emax - prec) with true by (symmetry; apply Z.leb_le; change (emax - prec) with 971; lia).
      split; [reflexivity|]. split.
      * apply bounded_spec. rewrite <- Ed2. lia.
      * destruct (Z.eq_dec f eb) as [Hfe|Hfe]; [right|left; lia].
        split; [exact Hfe|]. rewrite Hfe, Z.sub_diag in Hm1B. simpl in Hm1B. lia.
    + assert (HdB : Z.log2 (Zpos B) + 1 <= 53) by lia.
      assert (HB53 : Zpos B < 2 ^ 53).
      { apply Z.lt_le_trans with (2 ^ (Z.log2 (Zpos B) + 1)); [apply HBb|].
        apply Z.pow_le_mono_r; lia. }
      assert (Hfeb : f < eb).
      { destruct (Z.eq_dec f eb) as [Hfe|Hfe]; [|lia].
        rewrite Hfe, Z.sub_diag in Hm1B. simpl in Hm1B. lia. }
      destruct (shr_spec (Zpos q) loc_Exact f 1) as (mrs2 & E2 & Hm2); [lia|lia|].
      rewrite E2, Hm2, Hq53. change (2 ^ 53 / 2 ^ 1) with (Zpos (2 ^ 52)).
      cbv iota.
      replace (f + 1 <=? emax - prec) with true by (symmetry; apply Z.leb_le; change (emax - prec) with 971; lia).
      right. exists (2 ^ 52)%positive, (f + 1). split; [reflexivity|]. split.
      * apply bounded_spec. change (Z.log2 (Zpos (2 ^ 52))) with 52. lia.
      * destruct (Z.eq_dec (f + 1) eb) as [Hfe|Hfe]; [right|left; lia].
        split; [exact Hfe|].
        assert (Z.log2 (Zpos B) = 52) by lia.
        replace (Z.log2 (Zpos B)) with 52 in HBb by lia.
        change (Zpos (2 ^ 52)) with (2 ^ 52). lia.
Qed.


Lemma binary_round_aux_exact s p e :
  SpecFloat.fexp prec emax (Zdigits2 (Zpos p) + e) = e -> e <= 971 ->
  binary_round_aux prec emax s (Zpos p) e loc_Exact = S754_finite s p e.
Proof.
  intros Hcan He. unfold binary_round_aux, shr_fexp.
  rewrite Hcan, Z.sub_diag. simpl shr. cbn [shr_m round_nearest_even loc_of_shr_record].
  rewrite Hcan, Z.sub_diag. simpl shr. cbn [shr_m].
  replace (e <=? emax - prec) with true; [reflexivity|].
  symmetry. apply Z.leb_le. change (emax - prec) with 971. exact He.
Qed.

(** A mantissa short enough for its exponent is only shifted left: the
    value is kept, nothing is rounded. *)
Lemma binary_round_exact s p e :
  Z.log2 (Zpos p) + 1 <= 53 -> -1074 <= e -> e <= 971 ->
  exists m f, binary_round prec emax s p e = S754_finite s m f /\
              SpecFloat.bounded prec emax m f = true /\
              f <= e /\ Zpos m = Zpos p * 2 ^ (e - f).
Proof.
  intros Hd Hlo Hhi. unfold binary_round.
  rewrite digits2_pos_log2, fexp_eq.
  set (f := Z.max (Z.log2 (Zpos p) + 1 + e - 53) (-1074)).
  assert (Ef : f = Z.max (Z.log2 (Zpos p) + 1 + e - 53) (-1074)) by reflexivity.
  clearbody f.
  destruct (shl_align_spec p e f ltac:(lia)) as (m & Em & Hm).
  rewrite Em.
  assert (Hlog : Z.log2 (Zpos m) = Z.log2 (Zpos p) + (e - f)).
  { rewrite Hm, Z.log2_mul_pow2 by lia. lia. }
  assert (Hcan : SpecFloat.fexp prec emax (Zdigits2 (Zpos m) + f) = f).
  { rewrite Zdigits2_log2, fexp_eq, Hlog. lia. }
  exists m, f. rewrite binary_round_aux_exact by (assumption || lia).
  split; [reflexivity|]. split; [|split; [lia|exact Hm]].
  apply bounded_spec. rewrite Hlog. lia.
Qed.

Lemma binary_round_below s p e B eb :
  SpecFloat.bounded prec emax B eb = true ->
  e <= eb ->
  Zpos p < Zpos B * 2 ^ (eb - e) ->
  below s (binary_round prec emax s p e) B eb.
Proof.
  intros HB Hle Hlt. unfold binary_round.
  set (f := SpecFloat.fexp prec emax (Zpos (digits2_pos p) + e)).
  assert (Ef : f = SpecFloat.fexp prec emax (Zdigits2 (Zpos p) + e)) by reflexivity.
  clearbody f.
  destruct (Z_le_gt_dec f e) as [Hfe|Hfe].
  - destruct (shl_align_spec p e f Hfe) as (m & Em & Hm). rewrite Em.
    apply binary_round_aux_below; try assumption; try lia.
    + rewrite Zdigits2_log2, fexp_eq, Hm, Z.log2_mul_pow2 by lia.
      rewrite Zdigits2_log2, fexp_eq in Ef. lia.
    + rewrite Hm. replace (eb - f) with ((eb - e) + (e - f)) by lia.
      rewrite Z.pow_add_r, Z.mul_assoc by lia.
      apply Z.mul_lt_mono_pos_r; [apply Z.pow_pos_nonneg; lia|exact Hlt].
  - rewrite shl_align_ge by lia.
    apply binary_round_aux_below; try assumption. lia.
Qed.

(** The sum of a negative float and a larger positive one does not exceed
    the positive one. *)
Lemma SFadd_neg_pos_below mr er my ey :
  SpecFloat.bounded prec emax mr er = true ->
  SpecFloat.bounded prec emax my ey = true ->
  er < ey \/ (er = ey /\ Zpos mr < Zpos my) ->
  below false (SFadd prec emax (S754_finite true mr er) (S754_finite false my ey)) my ey.
Proof.
  intros Hr Hy Hlt. unfold SFadd.
  assert (Hmin : Z.min er ey = er) by lia. rewrite Hmin.
  rewrite (shl_align_ge mr er er) by lia.
  destruct (shl_align_spec my ey er ltac:(lia)) as (my' & Ey & Hy'). rewrite Ey.
  cbn [fst cond_Zopp].
  pose proof Hr as Hr'. pose proof Hy as Hy2.
  apply bounded_spec in Hr'. apply bounded_spec in Hy2.
  pose proof (log2_bounds (Zpos mr) ltac:(lia)) as Hmr.
  pose proof (log2_bounds (Zpos my) ltac:(lia)) as Hmy.
  assert (Hpos : Zpos mr < Zpos my').
  { rewrite Hy'. destruct Hlt as [Hlt|[-> Hlt]].
    - assert (Z.log2 (Zpos my) = 52) by lia.
      replace (Z.log2 (Zpos my)) with 52 in Hmy by lia.
      assert (Hmr53 : Zpos mr < 2 ^ 53).
      { apply Z.lt_le_trans with (2 ^ (Z.log2 (Zpos mr) + 1)); [apply Hmr|].
        apply Z.pow_le_mono_r; lia. }
      assert (2 ^ 1 <= 2 ^ (ey - er)) by (apply Z.pow_le_mono_r; lia).
      change (2 ^ 1) with 2 in *. nia.
    - rewrite Z.sub_diag. simpl. lia. }
  destruct (- Zpos mr + Zpos my') as [|p|p] eqn:Ep; try lia.
  cbn [binary_normalize].
  apply binary_round_below; [exact Hy|lia|]. rewrite <- Hy'. lia.
Qed.

(** [fmod] by a positive float: the remainder keeps the sign of the
    dividend, is a valid float, and is smaller than the divisor. *)
Lemma SFfmod_finite sx mx ex my ey :
  SpecFloat.bounded prec emax mx ex = true ->
  SpecFloat.bounded prec emax my ey = true ->
  let r := SFfmod (S754_finite sx mx ex) (S754_finite false my ey) in
  r = S754_zero sx \/
  exists m e, r = S754_finite sx m e /\ SpecFloat.bounded prec emax m e = true /\
              (e < ey \/ (e = ey /\ Zpos m < Zpos my)).
Proof.
  intros Hx Hy. cbn [SFfmod].
  pose proof Hx as Hx'. pose proof Hy as Hy'.
  apply bounded_spec in Hx'. apply bounded_spec in Hy'.
  set (ez := Z.min ex ey).
  assert (Eez : ez = Z.min ex ey) by reflexivity. clearbody ez.
  destruct (shl_align_spec mx ex ez ltac:(lia)) as (X & EX & HX).
  destruct (shl_align_spec my ey ez ltac:(lia)) as (Y & EY & HY).
  rewrite EX, EY. cbn [fst].
  pose proof (Z.rem_bound_pos (Zpos X) (Zpos Y) ltac:(lia) ltac:(lia)) as HR.
  pose proof (Z.rem_le (Zpos X) (Zpos Y) ltac:(lia) ltac:(lia)) as HRX.
  destruct (Z.rem (Zpos X) (Zpos Y)) as [|R|R] eqn:ER; [left; reflexivity| |lia].
  right.
  pose proof (log2_bounds (Zpos mx) ltac:(lia)) as Hmx.
  pose proof (log2_bounds (Zpos my) ltac:(lia)) as Hmy.
  assert (HR53 : Zpos R < 2 ^ 53).
  { destruct (Z_le_gt_dec ex ey) as [Hc|Hc].
    - replace (ex - ez) with 0 in HX by lia.
      apply Z.le_lt_trans with (Zpos mx); [simpl in HX; lia|].
      apply Z.lt_le_trans with (2 ^ (Z.log2 (Zpos mx) + 1)); [apply Hmx|].
      apply Z.pow_le_mono_r; lia.
    - replace (ey - ez) with 0 in HY by lia.
      apply Z.lt_trans with (Zpos my); [simpl in HY; lia|].
      apply Z.lt_le_trans with (2 ^ (Z.log2 (Zpos my) + 1)); [apply Hmy|].
      apply Z.pow_le_mono_r; lia. }
  assert (HlR : Z.log2 (Zpos R) + 1 <= 53).
  { assert (Z.log2 (Zpos R) < 53) by (apply Z.log2_lt_pow2; lia). lia. }
  destruct (binary_round_exact sx R ez HlR ltac:(lia) ltac:(lia)) as (m & f & Er & Hb & Hfe & Hm).
  exists m, f.
  assert (Enorm : binary_normalize prec emax (cond_Zopp sx (Zpos R)) ez sx
                  = binary_round prec emax sx R ez) by (destruct sx; reflexivity).
  rewrite Enorm, Er. split; [reflexivity|]. split; [exact Hb|].
  destruct (Z.eq_dec f ey) as [Hf|Hf]; [right|left; lia].
  split; [exact Hf|].
  replace (ey - ez) with 0 in HY by lia.
  replace (ez - f) with 0 in Hm by lia.
  simpl in HY, Hm. lia.
Qed.


Lemma int_mul_float_two_pi : int_mul_float 2 math_pi = Ok two_pi.
Proof. vm_compute. reflexivity. Qed.

Lemma Prim2SF_two_pi : Prim2SF two_pi = S754_finite false two_pi_m (-50).
Proof. vm_compute. reflexivity. Qed.

Lemma bounded_two_pi : SpecFloat.bounded prec emax two_pi_m (-50) = true.
Proof. vm_compute. reflexivity. Qed.

(** The outcome of [x % (2 * math.pi)], by the kind of [x]. *)
Theorem float_rem_two_pi (x : float) :
  exists a, float_rem x two_pi = Ok a /\
    match Prim2SF x with
    | S754_nan | S754_infinity _ => Prim2SF a = S754_nan
    | S754_zero _ => a = zero
    | S754_finite false _ _ => (0 <=? a)%float = true /\ (a <? two_pi)%float = true
    | S754_finite true _ _ => (0 <=? a)%float = true /\ (a <=? two_pi)%float = true
    end.
Proof.
  pose proof (Prim2SF_valid x) as Hv.
  unfold float_rem. change ((two_pi =? 0)%float) with false.
  change ((two_pi <? 0)%float) with false. cbv iota.
  unfold fmod. rewrite Prim2SF_two_pi.
  destruct (Prim2SF x) as [sx|sx| |sx mx ex] eqn:Ex.
  - (* zero *)
    cbn [SFfmod]. exists zero. split; [|reflexivity].
    destruct sx; reflexivity.
  - (* infinity *)
    cbn [SFfmod]. exists nan. split; reflexivity.
  - cbn [SFfmod]. exists nan. split; reflexivity.
  - destruct (SFfmod_finite sx mx ex two_pi_m (-50) Hv bounded_two_pi)
      as [Er|(m & e & Er & Hb & Hlt)]; rewrite Er.
    + exists zero. split; [destruct sx; reflexivity|].
      destruct sx; split; reflexivity.
    + assert (EP : Prim2SF (SF2Prim (S754_finite sx m e)) = S754_finite sx m e)
        by (apply Prim2SF_SF2Prim; exact Hb).
      set (mod_ := SF2Prim (S754_finite sx m e)) in *.
      assert (E0 : (mod_ =? 0)%float = false).
      { rewrite FloatAxioms.eqb_spec, EP. destruct sx; reflexivity. }
      assert (El : (mod_ <? 0)%float = sx).
      { rewrite FloatAxioms.ltb_spec, EP. destruct sx; reflexivity. }
      rewrite E0, El. cbn [negb].
      destruct sx; cbn [Bool.eqb negb].
      * exists (mod_ + two_pi)%float. split; [reflexivity|].
        rewrite !FloatAxioms.leb_spec, add_spec, EP, Prim2SF_two_pi.
        destruct (SFadd_neg_pos_below m e two_pi_m (-50) Hb bounded_two_pi Hlt)
          as [Ea|(m' & e' & Ea & Hb' & Hle)]; unfold SF64add; rewrite Ea.
        -- split; reflexivity.
        -- split; [reflexivity|]. unfold SFleb, SFcompare.
           destruct Hle as [Hle|[-> Hle]].
           ++ rewrite (proj2 (Z.compare_lt_iff _ _) Hle). reflexivity.
           ++ rewrite Z.compare_refl. rewrite Pos.compare_cont_spec. cbn [Pos.switch_Eq].
              destruct (Pos.compare_spec m' two_pi_m); try reflexivity. lia.
      * exists mod_. split; [reflexivity|].
        rewrite FloatAxioms.leb_spec, FloatAxioms.ltb_spec, EP, Prim2SF_two_pi. split; [reflexivity|].
        unfold SFltb, SFcompare.
        destruct Hlt as [Hlt|[-> Hlt]].
        -- rewrite (proj2 (Z.compare_lt_iff _ _) Hlt). reflexivity.
        -- rewrite Z.compare_refl. rewrite Pos.compare_cont_spec. cbn [Pos.switch_Eq].
           destruct (Pos.compare_spec m two_pi_m); try reflexivity; lia.
Qed.


(** *** Signs *)

Lemma binary_round_aux_sign s m e l :
  match binary_round_aux prec emax s m e l with
  | S754_zero s' | S754_infinity s' | S754_finite s' _ _ => s' = s
  | S754_nan => True
  end.
Proof.
  unfold binary_round_aux.
  destruct (shr_fexp prec emax m e l) as [mrs' e'].
  destruct (shr_fexp prec emax _ e' loc_Exact) as [mrs'' e''].
  destruct (shr_m mrs''); [reflexivity| |exact I].
  destruct (e'' <=? emax - prec); reflexivity.
Qed.

Lemma SFleb_zero_inv x :
  SFleb (S754_zero false) x = true ->
  match x with
  | S754_zero _ | S754_infinity false | S754_finite false _ _ => True
  | _ => False
  end.
Proof. destruct x as [s|s| |s m e]; try destruct s; simpl; intros; (exact I || discriminate). Qed.

Lemma SFmul_nonneg x y :
  SFleb (S754_zero false) x = true -> SFleb (S754_zero false) y = true ->
  nonneg_or_nan (SFmul prec emax x y).
Proof.
  intros Hx Hy. apply SFleb_zero_inv in Hx. apply SFleb_zero_inv in Hy.
  destruct x as [sx|[]| |[] mx ex]; destruct y as [sy|[]| |[] my ey];
    try contradiction; try exact I.
  cbn [SFmul xorb].
  pose proof (binary_round_aux_sign false (Zpos (mx * my)) (ex + ey) loc_Exact) as Hs.
  destruct (binary_round_aux prec emax false (Zpos (mx * my)) (ex + ey) loc_Exact);
    try subst; exact I.
Qed.

Lemma SFadd_nonneg x y :
  SFleb (S754_zero false) x = true -> nonneg_or_nan y ->
  nonneg_or_nan (SFadd prec emax x y).
Proof.
  intros Hx Hy. apply SFleb_zero_inv in Hx.
  destruct x as [[]|[]| |[] mx ex]; destruct y as [[]|[]| |[] my ey];
    try contradiction; try exact I.
  cbn [SFadd cond_Zopp].
  destruct (shl_align mx ex (Z.min ex ey)) as [mx' ex'].
  destruct (shl_align my ey (Z.min ex ey)) as [my' ey'].
  cbn [fst]. change (Zpos mx' + Zpos my') with (Zpos (mx' + my')).
  cbn [binary_normalize]. unfold binary_round.
  destruct (shl_align (mx' + my') _ _) as [mz ez].
  pose proof (binary_round_aux_sign false (Zpos mz) ez loc_Exact) as Hs.
  destruct (binary_round_aux prec emax false (Zpos mz) ez loc_Exact);
    try subst; exact I.
Qed.

(** With non-negative operands, [a + s * dt] is non-negative as soon as it
    is finite. *)
Lemma advance_nonneg (a s dt : float) :
  (0 <=? a)%float = true -> (0 <=? s)%float = true -> (0 <=? dt)%float = true ->
  (a + s * dt <? infinity)%float = true ->
  match Prim2SF (a + s * dt) with
  | S754_zero _ | S754_finite false _ _ => True
  | _ => False
  end.
Proof.
  rewrite !FloatAxioms.leb_spec, FloatAxioms.ltb_spec, add_spec, mul_spec.
  change (Prim2SF 0) with (S754_zero false).
  change (Prim2SF infinity) with (S754_infinity false).
  intros Ha Hs Hdt Hfin.
  pose proof (SFadd_nonneg _ _ Ha (SFmul_nonneg _ _ Hs Hdt)) as Hnn.
  unfold SF64add, SF64mul in *.
  destruct (SFadd prec emax (Prim2SF a) (SFmul prec emax (Prim2SF s) (Prim2SF dt)))
    as [sz|[]| |[] mz ez]; try contradiction; try discriminate; exact I.
Qed.


(** ** Facts on the program *)

Lemma SFmul_comm x y : SFmul prec emax x y = SFmul prec emax y x.
Proof.
  destruct x as [sx|sx| |sx mx ex]; destruct y as [sy|sy| |sy my ey];
    cbn [SFmul]; try rewrite (xorb_comm sx sy); try reflexivity.
  rewrite (Pos.mul_comm mx my), (Z.add_comm ex ey). reflexivity.
Qed.

Lemma float_mul_comm (x y : float) : (x * y)%float = (y * x)%float.
Proof.
  apply Prim2SF_inj. rewrite !mul_spec. apply SFmul_comm.
Qed.

Lemma is_infinity_spec (x : float) :
  is_infinity x = match Prim2SF x with S754_infinity _ => true | _ => false end.
Proof.
  unfold is_infinity. rewrite FloatAxioms.eqb_spec, abs_spec.
  change (Prim2SF infinity) with (S754_infinity false).
  destruct (Prim2SF x) as [s|s| |s m e]; reflexivity.
Qed.

Lemma is_finite_spec (x : float) :
  is_finite x = true ->
  match Prim2SF x with S754_zero _ | S754_finite _ _ _ => True | _ => False end.
Proof.
  unfold is_finite, is_nan. rewrite is_infinity_spec, FloatAxioms.eqb_spec.
  destruct (Prim2SF x) as [s|[]| |s m e]; simpl; intros; (exact I || discriminate).
Qed.

Lemma SFeqb_refl_finite s m e :
  SFeqb (S754_finite s m e) (S754_finite s m e) = true.
Proof.
  unfold SFeqb, SFcompare. rewrite Z.compare_refl, Pos.compare_cont_refl.
  destruct s; reflexivity.
Qed.

Lemma is_finite_false_spec (x : float) :
  is_finite x = false ->
  match Prim2SF x with S754_nan | S754_infinity _ => True | _ => False end.
Proof.
  unfold is_finite, is_nan. rewrite is_infinity_spec, FloatAxioms.eqb_spec.
  destruct (Prim2SF x) as [s|s| |s m e]; try (intros; exact I).
  - destruct s; discriminate.
  - rewrite SFeqb_refl_finite. discriminate.
Qed.

Lemma is_nan_spec (x : float) :
  is_nan x = match Prim2SF x with S754_nan => true | _ => false end.
Proof.
  unfold is_nan. rewrite FloatAxioms.eqb_spec.
  destruct (Prim2SF x) as [[]|[]| |s m e]; try reflexivity.
  rewrite SFeqb_refl_finite. reflexivity.
Qed.

(** [x % (2 * math.pi)] is never an infinity. *)
Lemma float_rem_two_pi_not_inf (x a : float) :
  float_rem x two_pi = Ok a -> is_infinity a = false.
Proof.
  intros Ha. destruct (float_rem_two_pi x) as (a' & Ea & Hcase).
  rewrite Ea in Ha. injection Ha as ->.
  rewrite is_infinity_spec.
  destruct (Prim2SF x) as [s|s| |[] m e].
  - subst a. reflexivity.
  - rewrite Hcase. reflexivity.
  - rewrite Hcase. reflexivity.
  - destruct Hcase as [H0 H1]. rewrite FloatAxioms.leb_spec in H0, H1.
    rewrite Prim2SF_two_pi in H1. change (Prim2SF 0) with (S754_zero false) in H0.
    destruct (Prim2SF a) as [s|[]| |s m' e']; try reflexivity; discriminate.
  - destruct Hcase as [H0 H1]. rewrite FloatAxioms.leb_spec in H0.
    rewrite FloatAxioms.ltb_spec, Prim2SF_two_pi in H1.
    change (Prim2SF 0) with (S754_zero false) in H0.
    destruct (Prim2SF a) as [s|[]| |s m' e']; try reflexivity; discriminate.
Qed.

(** [Electron.step] never raises and assigns [angle] only. *)
Lemma Electron_step_spec (dt : float) (e : Electron) :
  exists a, float_rem (angle e + speed e * dt)%float two_pi = Ok a /\
            Electron_step dt e = (Ok tt, set_angle a e).
Proof.
  destruct (float_rem_two_pi (angle e + speed e * dt)%float) as (a & Ea & _).
  exists a. split; [exact Ea|].
  unfold Electron_step, bind, get, lift, put.
  rewrite int_mul_float_two_pi, Ea. reflexivity.
Qed.

Lemma bind_ok {S A B} (c : M S A) (k : A -> M S B) (s s' : S) (a : A) :
  c s = (Ok a, s') -> bind c k s = k a s'.
Proof. intros Hc. unfold bind. rewrite Hc. reflexivity. Qed.

Lemma bind_raise {S A B} (c : M S A) (k : A -> M S B) (s s' : S) (e : exn) :
  c s = (Raise e, s') -> bind c k s = (Raise e, s').
Proof. intros Hc. unfold bind. rewrite Hc. reflexivity. Qed.

Section Traversal.
Context {E A : Type} (body : M E A).

Lemma map_each_length (l : list E) : length (snd (map_each body l)) = length l.
Proof.
  induction l as [|e l IH]; [reflexivity|]. cbn [map_each].
  destruct (body e) as [[a|x] e']; [|reflexivity].
  destruct (map_each body l) as [[r|x] l']; cbn [snd length] in *; congruence.
Qed.

Lemma map_each_frame (l : list E) :
  (forall e, snd (body e) = e) -> snd (map_each body l) = l.
Proof.
  intros Hframe. induction l as [|e l IH]; [reflexivity|]. cbn [map_each].
  pose proof (Hframe e) as He.
  destruct (body e) as [[a|x] e']; cbn [snd] in He; subst e'; [|reflexivity].
  destruct (map_each body l) as [[r|x] l']; cbn [snd] in *; congruence.
Qed.

Lemma map_each_result (l : list E) (r : list A) :
  fst (map_each body l) = Ok r ->
  Forall2 (fun e a => fst (body e) = Ok a) l r.
Proof.
  revert r. induction l as [|e l IH]; intros r; cbn [map_each].
  - intros [= <-]. constructor.
  - destruct (body e) as [[a|x] e'] eqn:Eb; [|discriminate].
    destruct (map_each body l) as [[r'|x] l']; [|discriminate].
    intros [= <-]. constructor; [rewrite Eb; reflexivity|].
    apply IH. reflexivity.
Qed.

Lemma map_each_ok (f : E -> A) (g : E -> E) (l : list E) :
  Forall (fun e => body e = (Ok (f e), g e)) l ->
  map_each body l = (Ok (List.map f l), List.map g l).
Proof.
  induction 1 as [|e l He Hl IH]; [reflexivity|].
  cbn [map_each List.map]. rewrite He, IH. reflexivity.
Qed.

End Traversal.

(** ** Electron.step: the normalization of the angle *)

Lemma step_normalized_once (e : Electron) (dt : float) :
  (0 <=? angle e)%float = true -> (0 <=? speed e)%float = true ->
  (0 <=? dt)%float = true ->
  (angle e + speed e * dt <? infinity)%float = true ->
  exists a, Electron_step dt e = (Ok tt, set_angle a e) /\
            normalized (set_angle a e) = true.
Proof.
  intros Ha Hs Hdt Hfin.
  pose proof (advance_nonneg _ _ _ Ha Hs Hdt Hfin) as Hnn.
  destruct (Electron_step_spec dt e) as (a & Ea & Estep).
  destruct (float_rem_two_pi (angle e + speed e * dt)%float) as (a' & Ea' & Hcase).
  rewrite Ea in Ea'. injection Ea' as <-.
  exists a. split; [exact Estep|]. unfold normalized. cbn [angle set_angle].
  destruct (Prim2SF (angle e + speed e * dt)%float) as [s|s| |[] m ex]; try contradiction.
  - subst a. reflexivity.
  - destruct Hcase as [-> ->]. reflexivity.
Qed.

Lemma Electron_steps_cons (dt : float) (dts : list float) (e : Electron) :
  Electron_steps (dt :: dts) e =
  match Electron_step dt e with
  | (Ok _, e') => Electron_steps dts e'
  | (Raise x, e') => (Raise x, e')
  end.
Proof. reflexivity. Qed.

(** Claim C1 (amended). For every electron whose angle and speed are
    non-negative, and every run of steps [dt :: dts] with each [dt >= 0] and
    no advance [angle + speed * dt] overflowing, every call returns and the
    angle ends in [0 <= angle < 2π]: one step establishes the invariant and
    any number of further such steps keeps it. *)
Theorem steps_keep_angle_normalized (e : Electron) (dt : float) (dts : list float) :
  (0 <=? angle e)%float = true ->
  (0 <=? speed e)%float = true ->
  admissible e (dt :: dts) = true ->
  fst (Electron_steps (dt :: dts) e) = Ok tt /\
  normalized (snd (Electron_steps (dt :: dts) e)) = true.
Proof.
  revert e dt. induction dts as [|dt' dts IH]; intros e dt Ha Hs Hadm.
  - cbn [admissible] in Hadm. rewrite !andb_true_iff in Hadm.
    destruct Hadm as [[Hdt Hfin] _].
    destruct (step_normalized_once e dt Ha Hs Hdt Hfin) as (a & Estep & Hn).
    rewrite Electron_steps_cons, Estep.
    split; [reflexivity|exact Hn].
  - change (admissible e (dt :: dt' :: dts)) with
      ((0 <=? dt)%float && (angle e + speed e * dt <? infinity)%float
       && admissible (snd (Electron_step dt e)) (dt' :: dts)) in Hadm.
    rewrite !andb_true_iff in Hadm. destruct Hadm as [[Hdt Hfin] Hadm].
    destruct (step_normalized_once e dt Ha Hs Hdt Hfin) as (a & Estep & Hn).
    rewrite Estep in Hadm. cbn [snd] in Hadm.
    unfold normalized in Hn. rewrite andb_true_iff in Hn. destruct Hn as [Hn0 _].
    rewrite Electron_steps_cons, Estep.
    exact (IH (set_angle a e) dt' Hn0 Hs Hadm).
Qed.

(** Electron 1 through the 600 frames of the animation, eleven
    revolutions and more. *)
Lemma steps_keep_angle_normalized_witness :
  fst (Electron_steps (1 :: repeat 1 599) electron_1)%float = Ok tt /\
  normalized (snd (Electron_steps (1 :: repeat 1 599) electron_1))%float = true.
Proof.
  apply (steps_keep_angle_normalized electron_1 1%float (repeat 1%float 599));
    vm_compute; reflexivity.
Defined.

(** Claim C1, as stated, fails: with a negative speed the angle can land on
    [2π] itself. The electron turns clockwise at 0.05 rad per unit of time;
    after [step(1e-20)] its angle is not below [2π]. *)
Lemma step_negative_speed_reaches_two_pi :
  (0 <=? 1e-20)%float = true /\
  Electron_step 1e-20 {| shell := 1; angle := 0; speed := -0.05 |}
    = (Ok tt, {| shell := 1; angle := two_pi; speed := -0.05 |}) /\
  normalized (snd (Electron_step 1e-20 {| shell := 1; angle := 0; speed := -0.05 |})) = false.
Proof. vm_compute. repeat split; reflexivity. Qed.

(** Claim C10 (amended). [Electron.step] returns for every [dt], negative
    ones included, and assigns the angle only. Whenever the advance
    [angle + speed * dt] is finite the new angle satisfies
    [0 <= angle <= 2π]; the bound [2π] is reached, so [angle < 2π] does not
    hold for every [dt]. When the advance is not finite the new angle is
    NaN. *)
Theorem step_total_within_turn (e : Electron) (dt : float) :
  fst (Electron_step dt e) = Ok tt /\
  shell (snd (Electron_step dt e)) = shell e /\
  speed (snd (Electron_step dt e)) = speed e /\
  (is_finite (angle e + speed e * dt)%float = true ->
   within_turn (snd (Electron_step dt e)) = true) /\
  (is_finite (angle e + speed e * dt)%float = false ->
   is_nan (angle (snd (Electron_step dt e))) = true).
Proof.
  destruct (Electron_step_spec dt e) as (a & Ea & Estep). rewrite Estep.
  cbn [fst snd].
  destruct (float_rem_two_pi (angle e + speed e * dt)%float) as (a' & Ea' & Hcase).
  rewrite Ea in Ea'. injection Ea' as <-.
  split; [reflexivity|]. split; [reflexivity|]. split; [reflexivity|]. split.
  - intros Hfin. apply is_finite_spec in Hfin.
    unfold within_turn. cbn [angle set_angle].
    destruct (Prim2SF (angle e + speed e * dt)%float) as [s|s| |[] m ex]; try contradiction.
    + subst a. reflexivity.
    + destruct Hcase as [-> ->]. reflexivity.
    + destruct Hcase as [-> Hlt]. cbn [andb].
      rewrite FloatAxioms.leb_spec. rewrite FloatAxioms.ltb_spec in Hlt.
      unfold SFleb, SFltb in *. destruct (SFcompare (Prim2SF a) (Prim2SF two_pi)) as [[]|];
        (reflexivity || discriminate).
  - intros Hfin. apply is_finite_false_spec in Hfin.
    cbn [angle set_angle]. rewrite is_nan_spec.
    destruct (Prim2SF (angle e + speed e * dt)%float) as [s|s| |s m ex]; try contradiction;
      rewrite Hcase; reflexivity.
Qed.

(** Electron 1 with a tiny negative [dt], and with an infinite one. *)
Lemma step_total_within_turn_witness :
  within_turn (snd (Electron_step (-1e-20) electron_1)) = true /\
  is_nan (angle (snd (Electron_step infinity electron_1))) = true.
Proof.
  split.
  - apply (proj1 (proj2 (proj2 (proj2 (step_total_within_turn electron_1 (-1e-20)%float))))).
    vm_compute. reflexivity.
  - apply (proj2 (proj2 (proj2 (proj2 (step_total_within_turn electron_1 infinity))))).
    vm_compute. reflexivity.
Defined.

(** Claim C10, as stated, fails: for electron 1 and the negative
    [dt = -1e-20] the remainder is a tiny negative number, and adding [2π]
    to it rounds to [2π]. *)
Lemma step_negative_dt_reaches_two_pi :
  Electron_step (-1e-20) electron_1
    = (Ok tt, {| shell := 1; angle := two_pi; speed := 0.12 |}) /\
  (angle (snd (Electron_step (-1e-20) electron_1)) <? two_pi)%float = false /\
  normalized (snd (Electron_step (-1e-20) electron_1)) = false.
Proof. vm_compute. repeat split; reflexivity. Qed.

(** ** One full revolution *)

(** Claim C6 (amended). Advancing electron 1 by [2π/0.12] units of time in
    one call, [step(2 * math.pi / 0.12)], is one full revolution: the angle
    is back at its start, here exactly. The same call at its own speed
    brings each of the eight electrons of a fresh atom back within [1e-15]
    of its start. Calls of [step(1.0)] do not bring electron 1 back during
    the 600 frames of the animation: after each of the first 600 calls its
    angle is more than 0.004 rad away from the start, around the circle. *)
Theorem full_revolution_in_one_step :
  Electron_step (2 * math_pi / 0.12) electron_1 = (Ok tt, electron_1) /\
  forallb (revolution_within 1e-15) initial_electrons = true /\
  stays_away 0.004 (angle electron_1) 600 electron_1 = true.
Proof.
  split; [vm_compute; reflexivity|]. split; vm_compute; reflexivity.
Qed.

(** Claim C6, as stated, fails: [2π/0.12 ≈ 52.36] is not a number of calls,
    and neither 52 nor 53 calls of [step(1.0)] bring electron 1 back: its
    angle is then 6.24 and 0.0768, not within 1e-9 of the start. *)
Lemma unit_steps_miss_revolution :
  (2 * math_pi / 0.12)%float = 52.35987755982989%float /\
  angle (after_unit_steps 52 electron_1) = 6.2400000000000047%float /\
  angle (after_unit_steps 53 electron_1) = 0.076814692820418529%float /\
  (turn_distance (angle (after_unit_steps 52 electron_1)) (angle electron_1) <=? 1e-9)%float = false /\
  (turn_distance (angle (after_unit_steps 53 electron_1)) (angle electron_1) <=? 1e-9)%float = false.
Proof. vm_compute. repeat split; reflexivity. Qed.


(** ** Atom: construction, and what its methods leave unchanged *)

Lemma Atom_populate_electrons_eq (a : Atom) :
  Atom_populate_electrons a = (Ok tt, {| atom_Z := atom_Z a; electrons := initial_electrons |}).
Proof. destruct a as [z l]. vm_compute. reflexivity. Qed.

Lemma Atom_init_eq (Z : Z) :
  Atom_init Z = (Ok tt, {| atom_Z := Z; electrons := initial_electrons |}).
Proof. unfold Atom_init. rewrite Atom_populate_electrons_eq. reflexivity. Qed.

Lemma initial_electrons_shells : List.map shell initial_electrons = initial_shells.
Proof. reflexivity. Qed.

(** Claim C2. A freshly built atom holds the two shell-1 electrons, then
    the six shell-2 electrons, each in creation order; electron [i] of
    shell 1 starts at angle [2π·i/2] with speed [0.12 + (i mod 2)×0.02] and
    electron [i] of shell 2 at [2π·i/6] with speed [0.07 + (i mod 3)×0.01].
    The constructor returns for every [Z]. *)
Theorem Atom_init_electrons (Z : Z) :
  Atom_init Z = (Ok tt, {| atom_Z := Z; electrons := initial_electrons |}) /\
  List.map shell initial_electrons = initial_shells /\
  initial_electrons =
    [mkElectron 1 (initial_angle 2 0) (initial_speed 0.12 2 0.02 0);
     mkElectron 1 (initial_angle 2 1) (initial_speed 0.12 2 0.02 1);
     mkElectron 2 (initial_angle 6 0) (initial_speed 0.07 3 0.01 0);
     mkElectron 2 (initial_angle 6 1) (initial_speed 0.07 3 0.01 1);
     mkElectron 2 (initial_angle 6 2) (initial_speed 0.07 3 0.01 2);
     mkElectron 2 (initial_angle 6 3) (initial_speed 0.07 3 0.01 3);
     mkElectron 2 (initial_angle 6 4) (initial_speed 0.07 3 0.01 4);
     mkElectron 2 (initial_angle 6 5) (initial_speed 0.07 3 0.01 5)].
Proof.
  split; [apply Atom_init_eq|]. split; [apply initial_electrons_shells|].
  reflexivity.
Qed.

(** The angles and speeds these formulas give in binary64. *)
Example initial_angles_and_speeds :
  List.map angle initial_electrons =
    [0; 3.1415926535897931; 0; 1.0471975511965976; 2.0943951023931953;
     3.1415926535897931; 4.1887902047863905; 5.2359877559829888]%float /\
  List.map speed initial_electrons =
    [0.12; 0.13999999999999999; 0.07; 0.08; 0.090000000000000011;
     0.07; 0.08; 0.090000000000000011]%float.
Proof. vm_compute. split; reflexivity. Qed.

Section AtomFacts.
Context {libm : Libm}.

Lemma Electron_position_frame (radius_scale : float) (e : Electron) :
  snd (Electron_position radius_scale e) = e.
Proof.
  unfold Electron_position, bind, get, lift, ret.
  destruct (int_mul_float (shell e) radius_scale); [|reflexivity].
  destruct (math_cos (angle e)); [|reflexivity].
  destruct (math_sin (angle e)); reflexivity.
Qed.

Lemma set_electrons_id (a : Atom) : set_electrons (electrons a) a = a.
Proof. destruct a; reflexivity. Qed.

Lemma Atom_positions_frame (radius_scale : float) (a : Atom) :
  snd (Atom_positions radius_scale a) = a.
Proof.
  unfold Atom_positions, zoom.
  pose proof (map_each_frame (Electron_position radius_scale) (electrons a)
                (Electron_position_frame radius_scale)) as Hf.
  destruct (map_each (Electron_position radius_scale) (electrons a)) as [r l].
  cbn [snd] in *. subst l. apply set_electrons_id.
Qed.

Lemma Atom_summary_frame (a : Atom) : snd (Atom_summary a) = a.
Proof.
  unfold Atom_summary, bind, get, lift, ret.
  destruct (str_of_int (atom_Z a)); [|reflexivity].
  destruct (str_of_int (Z.of_nat (length (electrons a)))); [|reflexivity].
  destruct (map_result _ _); reflexivity.
Qed.

Lemma Atom_step_eq (dt : float) (a : Atom) :
  Atom_step dt a =
  (Ok tt, set_electrons (List.map (fun e => snd (Electron_step dt e)) (electrons a)) a).
Proof.
  unfold Atom_step, zoom, for_each.
  rewrite (map_each_ok (Electron_step dt) (fun _ => tt) (fun e => snd (Electron_step dt e))).
  - reflexivity.
  - apply Forall_forall. intros e _.
    destruct (Electron_step_spec dt e) as (x & _ & ->). reflexivity.
Qed.

Lemma Electron_step_shell (dt : float) (e : Electron) :
  shell (snd (Electron_step dt e)) = shell e.
Proof. destruct (Electron_step_spec dt e) as (x & _ & ->). reflexivity. Qed.

Lemma exec_atom_Z (o : Op) (a : Atom) : atom_Z (exec o a) = atom_Z a.
Proof.
  destruct o as [dt|rs| |]; cbn [exec].
  - rewrite Atom_step_eq. reflexivity.
  - rewrite Atom_positions_frame. reflexivity.
  - rewrite Atom_summary_frame. reflexivity.
  - rewrite Atom_populate_electrons_eq. reflexivity.
Qed.

Lemma exec_shells (o : Op) (a : Atom) :
  List.map shell (electrons a) = initial_shells ->
  List.map shell (electrons (exec o a)) = initial_shells.
Proof.
  intros Ha. destruct o as [dt|rs| |]; cbn [exec].
  - rewrite Atom_step_eq. cbn [snd electrons set_electrons].
    rewrite List.map_map, <- Ha. apply List.map_ext. intros e. apply Electron_step_shell.
  - rewrite Atom_positions_frame. exact Ha.
  - rewrite Atom_summary_frame. exact Ha.
  - rewrite Atom_populate_electrons_eq. reflexivity.
Qed.

Lemma run_shells (ops : list Op) (a : Atom) :
  List.map shell (electrons a) = initial_shells ->
  List.map shell (electrons (run ops a)) = initial_shells.
Proof.
  revert a. induction ops as [|o ops IH]; intros a Ha; [exact Ha|].
  change (run (o :: ops) a) with (run ops (exec o a)).
  apply IH. apply exec_shells. exact Ha.
Qed.

Lemma run_atom_Z (ops : list Op) (a : Atom) : atom_Z (run ops a) = atom_Z a.
Proof.
  revert a. induction ops as [|o ops IH]; intros a; [reflexivity|].
  change (run (o :: ops) a) with (run ops (exec o a)).
  rewrite (IH (exec o a)). apply exec_atom_Z.
Qed.

Lemma electrons_on_shell_map (n : Z) (a : Atom) :
  electrons_on_shell n a
  = length (List.filter (fun k => k =? n) (List.map shell (electrons a))).
Proof.
  unfold electrons_on_shell. induction (electrons a) as [|e l IH]; [reflexivity|].
  cbn [List.filter List.map]. destruct (shell e =? n); cbn [length]; rewrite IH; reflexivity.
Qed.

(** Claim C4. Whatever [Z] the constructor is given, the atom has eight
    electrons, two on shell 1 and six on shell 2, and no later call of a
    method changes this. *)
Theorem electron_count_fixed (Z : Z) (ops : list Op) :
  fst (Atom_init Z) = Ok tt /\
  List.map shell (electrons (run ops (snd (Atom_init Z)))) = initial_shells /\
  length (electrons (run ops (snd (Atom_init Z)))) = 8%nat /\
  electrons_on_shell 1 (run ops (snd (Atom_init Z))) = 2%nat /\
  electrons_on_shell 2 (run ops (snd (Atom_init Z))) = 6%nat.
Proof.
  pose proof (Atom_init_eq Z) as Einit.
  assert (Hrun : List.map shell (electrons (run ops (snd (Atom_init Z)))) = initial_shells).
  { apply run_shells. rewrite Einit. apply initial_electrons_shells. }
  split; [rewrite Einit; reflexivity|]. split; [exact Hrun|].
  split; [|split].
  - rewrite <- (List.length_map shell), Hrun. reflexivity.
  - rewrite electrons_on_shell_map, Hrun. reflexivity.
  - rewrite electrons_on_shell_map, Hrun. reflexivity.
Qed.

End AtomFacts.

(** ** Atom.summary *)

Lemma shell_counts_of_map (l : list Electron) :
  shell_counts_of l
  = fold_left (fun (sc : gmap Z Z) n => <[n := default 0 (sc !! n) + 1]> sc)
              (List.map shell l) ∅.
Proof.
  unfold shell_counts_of. generalize (∅ : gmap Z Z).
  induction l as [|e l IH]; intros sc; [reflexivity|].
  cbn [fold_left List.map]. apply IH.
Qed.

(** The text depends on [Z] and on the shells of the electrons only. *)
Lemma Atom_summary_shells (a a' : Atom) :
  atom_Z a = atom_Z a' ->
  List.map shell (electrons a) = List.map shell (electrons a') ->
  fst (Atom_summary a) = fst (Atom_summary a').
Proof.
  intros HZ Hs. unfold Atom_summary, bind, get, lift, ret.
  rewrite HZ, !shell_counts_of_map, Hs.
  rewrite <- (List.length_map shell (electrons a)), Hs, List.length_map.
  destruct (str_of_int (atom_Z a')); [|reflexivity].
  destruct (str_of_int (Z.of_nat (length (electrons a')))); [|reflexivity].
  destruct (map_result _ _); reflexivity.
Qed.

(** An [int] of one digit is far below the limit of [str]. *)
Lemma str_of_int_digit (n : Z) : Z.abs n < 10 -> str_of_int n = Ok (pretty n).
Proof.
  intros Hn. unfold str_of_int.
  assert (H : Z.abs n < 10 ^ int_max_str_digits).
  { apply Z.lt_le_trans with (10 ^ 1); [exact Hn|].
    apply Z.pow_le_mono_r; [reflexivity|]. unfold int_max_str_digits. lia. }
  apply Z.ltb_lt in H. rewrite H. reflexivity.
Qed.

Section SummaryFacts.
Context {libm : Libm}.

Lemma Atom_summary_reached (ops : list Op) :
  Atom_summary (run ops (snd (Atom_init Z_)))
  = (Ok default_summary, run ops (snd (Atom_init Z_))).
Proof.
  rewrite (surjective_pairing (Atom_summary _)), Atom_summary_frame. f_equal.
  rewrite (Atom_summary_shells _ (snd (Atom_init Z_))).
  - rewrite Atom_init_eq. unfold Atom_summary, bind, get, lift, ret.
    cbn [snd atom_Z electrons].
    assert (Hk : sorted_keys (shell_counts_of initial_electrons) = [1; 2])
      by (vm_compute; reflexivity).
    assert (H1 : shell_counts_of initial_electrons !!! 1 = 2)
      by (vm_compute; reflexivity).
    assert (H2 : shell_counts_of initial_electrons !!! 2 = 6)
      by (vm_compute; reflexivity).
    rewrite Hk. cbn [map_result]. unfold shell_line. rewrite H1, H2.
    rewrite !str_of_int_digit by (vm_compute; reflexivity).
    vm_compute. reflexivity.
  - rewrite run_atom_Z. reflexivity.
  - rewrite run_shells; reflexivity.
Qed.

(** Claim C5. In every state a default atom reaches, [summary()] returns
    the same five lines: the count per shell in ascending shell order,
    "couche 1: 2" before "couche 2: 6", a total of 8 electrons, the words
    "8 électrons", and exactly two shell lines. The atom is left as it was,
    and two atoms with the same [Z] and the same shells get the same text,
    whatever their angles and speeds. *)
Theorem summary_of_default_atom (ops : list Op) :
  Atom_summary (run ops (snd (Atom_init Z_)))
    = (Ok default_summary, run ops (snd (Atom_init Z_))) /\
  (exists i j, find "couche 1: 2" default_summary = Some i /\
               find "couche 2: 6" default_summary = Some j /\ (i < j)%nat) /\
  (exists k, find "Nombre d'électrons: 8" default_summary = Some k) /\
  (exists k, find "8 électrons" default_summary = Some k) /\
  List.filter is_shell_line (splitlines default_summary)
    = ["  couche 1: 2 électrons"; "  couche 2: 6 électrons"] /\
  (forall a a', atom_Z a = atom_Z a' ->
                List.map shell (electrons a) = List.map shell (electrons a') ->
                fst (Atom_summary a) = fst (Atom_summary a')).
Proof.
  split; [|split; [|split; [|split; [|split]]]].
  - apply Atom_summary_reached.
  - vm_compute. eexists _, _. split; [reflexivity|]. split; [reflexivity|]. lia.
  - vm_compute. eexists. reflexivity.
  - vm_compute. eexists. reflexivity.
  - vm_compute. reflexivity.
  - exact Atom_summary_shells.
Qed.

End SummaryFacts.

(** ** Positions *)

(** An [int] below the largest binary64 number in magnitude converts
    without [OverflowError]. *)
Lemma float_of_int_ok (n : Z) :
  Z.abs n < 2 ^ 1024 - 2 ^ 971 -> float_of_int n = Ok (float_of_Z n).
Proof.
  intros Hn. unfold float_of_int, float_of_Z.
  assert (Hfin : forall s p, Zpos p < 2 ^ 1024 - 2 ^ 971 ->
            is_infinity (SF2Prim (binary_round prec emax s p 0)) = false).
  { intros s p Hp.
    assert (HB : SpecFloat.bounded prec emax (2 ^ 53 - 1) 971 = true)
      by (vm_compute; reflexivity).
    assert (HBv : Zpos (2 ^ 53 - 1) * 2 ^ (971 - 0) = 2 ^ 1024 - 2 ^ 971)
      by (vm_compute; reflexivity).
    destruct (binary_round_below s p 0 (2 ^ 53 - 1) 971 HB ltac:(lia) ltac:(lia))
      as [->|(m & e & -> & Hb & _)].
    - destruct s; reflexivity.
    - rewrite is_infinity_spec, Prim2SF_SF2Prim by exact Hb. reflexivity. }
  destruct n as [|p|p]; cbn [binary_normalize].
  - reflexivity.
  - rewrite Hfin by (cbn [Z.abs] in Hn; exact Hn). reflexivity.
  - rewrite Hfin by (cbn [Z.abs] in Hn; exact Hn). reflexivity.
Qed.

Section PositionFacts.
Context {libm : Libm}.

Lemma Electron_position_spec (radius_scale : float) (e : Electron) :
  fst (Electron_position radius_scale e) = position_spec radius_scale e.
Proof.
  unfold Electron_position, position_spec, bind, get, lift, ret.
  unfold int_mul_float, float_mul_int.
  destruct (float_of_int (shell e)) as [f|x]; [|reflexivity].
  destruct (math_cos (angle e)) as [c|x]; [|reflexivity].
  destruct (math_sin (angle e)) as [s|x]; [|reflexivity].
  cbn [fst]. rewrite (float_mul_comm f radius_scale). reflexivity.
Qed.

Lemma Electron_position_ok (radius_scale : float) (e : Electron) (f : float) :
  float_of_int (shell e) = Ok f ->
  is_infinity (angle e) = false ->
  Electron_position radius_scale e
  = (Ok ((radius_scale * f) * libm_cos (angle e),
         (radius_scale * f) * libm_sin (angle e))%float, e).
Proof.
  intros Hf Hinf.
  unfold Electron_position, bind, get, lift, ret, int_mul_float, math_cos, math_sin.
  rewrite Hf, Hinf, (float_mul_comm f radius_scale). reflexivity.
Qed.

Lemma renderable_position (radius_scale : float) (e : Electron) :
  renderable e = true ->
  Electron_position radius_scale e = (Ok (position_of radius_scale e), e).
Proof.
  unfold renderable. rewrite andb_true_iff, negb_true_iff, orb_true_iff, !Z.eqb_eq.
  intros [Hinf Hshell]. apply Electron_position_ok; [|exact Hinf].
  apply float_of_int_ok. destruct Hshell as [-> | ->]; vm_compute; reflexivity.
Qed.

Lemma Atom_positions_renderable (radius_scale : float) (a : Atom) :
  forallb renderable (electrons a) = true ->
  Atom_positions radius_scale a
  = (Ok (List.map (position_of radius_scale) (electrons a)), a).
Proof.
  intros Hr. unfold Atom_positions, zoom.
  rewrite (map_each_ok (Electron_position radius_scale) (position_of radius_scale) (fun e => e)).
  - rewrite List.map_id, set_electrons_id. reflexivity.
  - apply List.Forall_forall. intros e He.
    rewrite forallb_forall in Hr. apply renderable_position. apply Hr. exact He.
Qed.

Lemma exec_renderable (o : Op) (a : Atom) :
  forallb renderable (electrons a) = true ->
  forallb renderable (electrons (exec o a)) = true.
Proof.
  intros Ha. destruct o as [dt|rs| |]; cbn [exec].
  - rewrite Atom_step_eq. cbn [snd electrons set_electrons].
    rewrite forallb_forall in *. intros e' He'.
    apply List.in_map_iff in He'. destruct He' as (e & <- & He).
    specialize (Ha e He). unfold renderable in *.
    destruct (Electron_step_spec dt e) as (x & Hx & ->). cbn [snd angle shell set_angle].
    rewrite (float_rem_two_pi_not_inf _ _ Hx).
    rewrite andb_true_iff in Ha. destruct Ha as [_ ->]. reflexivity.
  - rewrite Atom_positions_frame. exact Ha.
  - rewrite Atom_summary_frame. exact Ha.
  - rewrite Atom_populate_electrons_eq. vm_compute. reflexivity.
Qed.

Lemma run_renderable (ops : list Op) (a : Atom) :
  forallb renderable (electrons a) = true ->
  forallb renderable (electrons (run ops a)) = true.
Proof.
  revert a. induction ops as [|o ops IH]; intros a Ha; [exact Ha|].
  change (run (o :: ops) a) with (run ops (exec o a)).
  apply IH. apply exec_renderable. exact Ha.
Qed.

Lemma reachable_renderable (a : Atom) :
  reachable a -> forallb renderable (electrons a) = true.
Proof.
  intros (Z & ops & ->). apply run_renderable.
  rewrite Atom_init_eq. vm_compute. reflexivity.
Qed.

(** Claim C3 (amended). [position] never changes the electron, and its
    outcome is that of the pair
    [(radiusScale·shell·cos(angle), radiusScale·shell·sin(angle))], raising
    where the pair raises. It returns that pair for every electron whose
    shell is below the largest binary64 number in magnitude and whose angle
    is not an infinity. For a fresh default atom the first element of
    [positions(1.5)] is [(1.5, 0.0)], given [cos(0) = 1] and [sin(0) = 0]. *)
Theorem position_as_specified :
  (forall e radius_scale,
     fst (Electron_position radius_scale e) = position_spec radius_scale e /\
     snd (Electron_position radius_scale e) = e) /\
  (forall e radius_scale,
     Z.abs (shell e) < 2 ^ 1024 - 2 ^ 971 ->
     is_infinity (angle e) = false ->
     Electron_position radius_scale e
     = (Ok ((radius_scale * float_of_Z (shell e)) * libm_cos (angle e),
            (radius_scale * float_of_Z (shell e)) * libm_sin (angle e))%float, e)) /\
  (libm_cos 0 = 1%float -> libm_sin 0 = 0%float ->
   exists rest,
     Atom_positions 1.5 (snd (Atom_init Z_))
     = (Ok ((1.5, 0)%float :: rest), snd (Atom_init Z_))).
Proof.
  split; [|split].
  - intros e rs. split; [apply Electron_position_spec|apply Electron_position_frame].
  - intros e rs Hshell Hinf. apply Electron_position_ok; [|exact Hinf].
    apply float_of_int_ok. exact Hshell.
  - intros Hcos Hsin. rewrite Atom_positions_renderable.
    + rewrite Atom_init_eq.
      cbn [snd electrons initial_electrons List.map range seq app].
      unfold position_of at 1. cbn [angle shell].
      change (initial_angle 2 (Z.of_nat 0)) with 0%float.
      rewrite Hcos, Hsin. eexists. reflexivity.
    + apply reachable_renderable. exists Z_, []. reflexivity.
Qed.

End PositionFacts.

Lemma position_as_specified_witness :
  Electron_position (libm := libm_small_angle) 1.5 electron_1
  = (Ok (1.5, 0)%float, electron_1) /\
  exists rest,
    Atom_positions (libm := libm_small_angle) 1.5 (snd (Atom_init Z_))
    = (Ok ((1.5, 0)%float :: rest), snd (Atom_init Z_)).
Proof.
  split.
  - apply (proj1 (proj2 (position_as_specified (libm := libm_small_angle))) electron_1 1.5%float);
      vm_compute; reflexivity.
  - apply (proj2 (proj2 (position_as_specified (libm := libm_small_angle))));
      vm_compute; reflexivity.
Defined.

(** Claim C3, as stated, fails: [position] raises instead of returning a
    pair when the angle is infinite ([math.cos] raises [ValueError]) and
    when the shell is too large an [int] for a float ([OverflowError]),
    whatever the C library. *)
Lemma position_raises :
  Electron_position (libm := libm_small_angle) 1
    {| shell := 1; angle := infinity; speed := 0.05 |}
  = (Raise ValueError, {| shell := 1; angle := infinity; speed := 0.05 |}) /\
  Electron_position (libm := libm_small_angle) 1
    {| shell := 2 ^ 1024; angle := 0; speed := 0.05 |}
  = (Raise OverflowError, {| shell := 2 ^ 1024; angle := 0; speed := 0.05 |}).
Proof. split; vm_compute; reflexivity. Qed.

(** ** The two modes and main *)

Section MainFacts.
Context {libm : Libm} {formatter : Formatter}.

Lemma print_eq (line : string) (p : Process) :
  print line p
  = (Ok tt, set_io {| stdout := stdout (io p) ++ [line]; stderr := stderr (io p) |} p).
Proof. reflexivity. Qed.

Lemma for_in_print {X} (f : X -> string) (l : list X) (p : Process) :
  for_in l (fun x => print (f x)) p
  = (Ok tt, set_io {| stdout := stdout (io p) ++ List.map f l; stderr := stderr (io p) |} p).
Proof.
  revert p. induction l as [|x l IH]; intros [a [out err]].
  - cbn. rewrite List.app_nil_r. reflexivity.
  - cbn [for_in]. rewrite (bind_ok _ _ _ _ _ (print_eq _ _)), IH.
    cbn [io stdout stderr set_io atom List.map]. rewrite <- List.app_assoc. reflexivity.
Qed.

Lemma run_print_fresh (s : Streams) :
  run_print {| atom := snd (Atom_init Z_); io := s |}
  = (Ok tt, {| atom := snd (Atom_init Z_);
               io := {| stdout := stdout s ++ print_output; stderr := stderr s |} |}).
Proof.
  unfold run_print.
  assert (Hsum : Atom_summary (snd (Atom_init Z_)) = (Ok default_summary, snd (Atom_init Z_)))
    by exact (Atom_summary_reached []).
  assert (Hpos : Atom_positions 1.5 (snd (Atom_init Z_))
                 = (Ok (List.map (position_of 1.5) initial_electrons), snd (Atom_init Z_))).
  { rewrite Atom_positions_renderable.
    - rewrite Atom_init_eq. reflexivity.
    - apply reachable_renderable. exists Z_, []. reflexivity. }
  destruct s as [out err].
  erewrite bind_ok; [|unfold zoom; cbn [atom]; rewrite Hsum; reflexivity].
  rewrite (bind_ok _ _ _ _ _ (print_eq _ _)).
  rewrite (bind_ok _ _ _ _ _ (print_eq _ _)).
  erewrite bind_ok; [|unfold zoom; cbn [atom set_atom set_io]; rewrite Hpos; reflexivity].
  rewrite for_in_print. cbn [io stdout stderr set_io set_atom atom].
  unfold print_output. rewrite <- !List.app_assoc. reflexivity.
Qed.

Lemma update_ok (p : Process) :
  forallb renderable (electrons (atom p)) = true ->
  update p = (Ok tt, set_atom (exec (OpStep 1) (atom p)) p).
Proof.
  intros Hr. unfold update.
  assert (H1 : float_of_int 1 = Ok 1%float) by (vm_compute; reflexivity).
  pose proof (exec_renderable (OpStep 1) (atom p) Hr) as Hr'.
  erewrite bind_ok; [|unfold lift; rewrite H1; reflexivity].
  erewrite bind_ok; [|unfold zoom; cbn [exec] in *; rewrite Atom_step_eq; reflexivity].
  erewrite bind_ok;
    [|unfold zoom; cbn [atom set_atom];
      rewrite Atom_positions_renderable;
      [reflexivity|cbn [exec] in Hr'; rewrite Atom_step_eq in Hr'; exact Hr']].
  unfold ret. cbn [exec]. rewrite Atom_step_eq. destruct p; reflexivity.
Qed.

Lemma frames_ok (n k : nat) (p : Process) :
  forallb renderable (electrons (atom p)) = true ->
  exists a, for_in (seq k n) (fun frame => update) p = (Ok tt, set_atom a p).
Proof.
  revert k p. induction n as [|n IH]; intros k p Hr.
  - exists (atom p). destruct p; reflexivity.
  - cbn [seq for_in]. rewrite (bind_ok _ _ _ _ _ (update_ok p Hr)).
    destruct (IH (S k) (set_atom (exec (OpStep 1) (atom p)) p)) as (a & Ea).
    + cbn [atom set_atom]. apply exec_renderable. exact Hr.
    + exists a. rewrite Ea. destruct p; reflexivity.
Qed.

(** The outcomes of [run_animate] on a fresh atom, by what the plotting
    library does. *)
Lemma run_animate_fresh (mpl : Matplotlib) (s : Streams) :
  let p := {| atom := snd (Atom_init Z_); io := s |} in
  match import_result mpl with
  | Raise e =>
      run_animate mpl p
      = if is_Exception e
        then (Raise e, set_io {| stdout := stdout s; stderr := stderr s ++ [matplotlib_required] |} p)
        else (Raise e, p)
  | Ok _ =>
      match setup_result mpl with
      | Raise e => run_animate mpl p = (Raise e, p)
      | Ok _ => exists a, run_animate mpl p = (show_result mpl, set_atom a p)
      end
  end.
Proof.
  intros p. unfold run_animate.
  destruct (import_result mpl) as [[]|e] eqn:Ei.
  - erewrite bind_ok; [|unfold try_except, lift; reflexivity].
    destruct (setup_result mpl) as [[]|e] eqn:Es.
    + erewrite bind_ok; [|unfold lift; reflexivity].
      destruct (frames_ok (frames_drawn mpl) 0 p) as (a & Ea).
      { apply reachable_renderable. exists Z_, []. reflexivity. }
      rewrite (bind_ok _ _ _ _ _ Ea). exists a. reflexivity.
    + erewrite bind_raise; [reflexivity|]. reflexivity.
  - destruct (is_Exception e) eqn:Ee.
    + erewrite bind_raise; [reflexivity|].
      unfold try_except, lift. rewrite Ee. reflexivity.
    + erewrite bind_raise; [reflexivity|].
      unfold try_except, lift. rewrite Ee. reflexivity.
Qed.

(** Claim C7 (amended). Print mode is selected by [--print], also when
    [--animate] is given with it, and when neither flag is given; it writes
    the summary and the positions and returns 0. Animation mode, selected by
    [--animate] alone, returns 0 when the plotting library is imported and
    runs without raising. When its import fails with an exception,
    [run_animate] writes the diagnostic to the error stream and re-raises,
    and [main] returns 2. When the imported library raises later, [main]
    returns 2 as well, and nothing is written to the error stream. What is
    not an [Exception] (an interrupt) propagates out of [main]. *)
Theorem main_modes (mpl : Matplotlib) (args : Namespace) (s : Streams) :
  (do_print args = true \/ animate args = false ->
   main mpl args s
   = (Ok 0, {| stdout := stdout s ++ print_output; stderr := stderr s |})) /\
  (do_print args = false /\ animate args = true ->
   match import_result mpl with
   | Raise e =>
       main mpl args s
       = if is_Exception e
         then (Ok 2, {| stdout := stdout s; stderr := stderr s ++ [matplotlib_required] |})
         else (Raise e, s)
   | Ok _ =>
       match setup_result mpl with
       | Raise e => main mpl args s = (if is_Exception e then Ok 2 else Raise e, s)
       | Ok _ =>
           match show_result mpl with
           | Raise e => main mpl args s = (if is_Exception e then Ok 2 else Raise e, s)
           | Ok _ => main mpl args s = (Ok 0, s)
           end
       end
   end).
Proof.
  assert (Hinit : fst (Atom_init Z_) = Ok tt) by reflexivity.
  assert (Hprint : (run_print ;;; ret 0) {| atom := snd (Atom_init Z_); io := s |}
                   = (Ok 0, {| atom := snd (Atom_init Z_);
                               io := {| stdout := stdout s ++ print_output;
                                        stderr := stderr s |} |})).
  { unfold bind. rewrite run_print_fresh. reflexivity. }
  split.
  - intros Hmode. unfold main.
    rewrite (surjective_pairing (Atom_init Z_)), Hinit.
    destruct (do_print args) eqn:Ep.
    + rewrite Hprint. reflexivity.
    + destruct Hmode as [Hmode| ->]; [discriminate|]. rewrite Hprint. reflexivity.
  - intros [Ep Ea]. unfold main.
    rewrite (surjective_pairing (Atom_init Z_)), Hinit, Ep, Ea.
    pose proof (run_animate_fresh mpl s) as Hrun. cbv zeta in Hrun.
    unfold try_except, bind.
    destruct (import_result mpl) as [[]|e].
    + destruct (setup_result mpl) as [[]|e].
      * destruct Hrun as (a & ->).
        destruct (show_result mpl) as [[]|e]; [destruct s; reflexivity|].
        destruct (is_Exception e) eqn:Ee; cbn iota beta; rewrite ?Ee;
          destruct s; reflexivity.
      * rewrite Hrun.
        destruct (is_Exception e) eqn:Ee; cbn iota beta; rewrite ?Ee;
          destruct s; reflexivity.
    + rewrite Hrun.
      destruct (is_Exception e) eqn:Ee; cbn iota beta; rewrite ?Ee;
        destruct s; reflexivity.
Qed.

End MainFacts.

Lemma main_modes_witness :
  main (libm := libm_small_angle) (formatter := formatter_blank)
    {| import_result := Raise ImportError; setup_result := Ok tt;
       frames_drawn := 0; show_result := Ok tt |}
    {| animate := true; do_print := true |}
    {| stdout := []; stderr := [] |}
  = (Ok 0, {| stdout := [] ++ print_output (libm := libm_small_angle) (formatter := formatter_blank);
              stderr := [] |}) /\
  main (libm := libm_small_angle) (formatter := formatter_blank)
    {| import_result := Raise ImportError; setup_result := Ok tt;
       frames_drawn := 0; show_result := Ok tt |}
    {| animate := true; do_print := false |}
    {| stdout := []; stderr := [] |}
  = (Ok 2, {| stdout := []; stderr := [] ++ [matplotlib_required] |}).
Proof.
  split.
  - apply (proj1 (main_modes (libm := libm_small_angle) (formatter := formatter_blank)
             {| import_result := Raise ImportError; setup_result := Ok tt;
                frames_drawn := 0; show_result := Ok tt |}
             {| animate := true; do_print := true |}
             {| stdout := []; stderr := [] |})).
    left. reflexivity.
  - apply (proj2 (main_modes (libm := libm_small_angle) (formatter := formatter_blank)
             {| import_result := Raise ImportError; setup_result := Ok tt;
                frames_drawn := 0; show_result := Ok tt |}
             {| animate := true; do_print := false |}
             {| stdout := []; stderr := [] |})).
    split; reflexivity.
Defined.

(** Claim C7, as stated, fails: when the plotting library is imported but
    raises while the figure is built, the animation fails and [main]
    returns 2, yet no diagnostic reaches the error stream. *)
Lemma render_failure_without_diagnostic :
  main (libm := libm_small_angle) (formatter := formatter_blank)
    {| import_result := Ok tt; setup_result := Raise RuntimeError;
       frames_drawn := 0; show_result := Ok tt |}
    {| animate := true; do_print := false |}
    {| stdout := []; stderr := [] |}
  = (Ok 2, {| stdout := []; stderr := [] |}).
Proof. vm_compute. reflexivity. Qed.

(** * Further properties of the program *)

(** ** Magnitudes: how large a rounded result can be *)

Lemma lt_pow2_magnitude p e K :
  Z.log2 (Zpos p) + 1 + e <= K -> Zpos p < 2 ^ (K - e).
Proof.
  intros H. pose proof (log2_bounds (Zpos p) ltac:(lia)) as [_ Hp].
  apply Z.lt_le_trans with (2 ^ (Z.log2 (Zpos p) + 1)); [exact Hp|].
  apply Z.pow_le_mono_r; lia.
Qed.

Lemma bounded_pow2 K :
  -1022 <= K <= 1023 -> SpecFloat.bounded prec emax (2 ^ 52) (K - 52) = true.
Proof.
  intros HK. apply bounded_spec. change (Z.log2 (Zpos (2 ^ 52))) with 52. lia.
Qed.

Lemma below_small s r K :
  below s r (2 ^ 52) (K - 52) -> small s (K + 1) r.
Proof.
  intros [->|(m & e & -> & Hb & Hle)]; [left; eauto|right].
  exists m, e. split; [reflexivity|]. split; [exact Hb|].
  apply bounded_spec in Hb. unfold magnitude.
  destruct Hle as [Hlt|[-> Hm]]; [lia|].
  assert (Z.log2 (Zpos m) <= 52); [|lia].
  change 52 with (Z.log2 (Zpos (2 ^ 52))). apply Z.log2_le_mono. exact Hm.
Qed.

Lemma binary_round_aux_small s p e K :
  e <= SpecFloat.fexp prec emax (Zdigits2 (Zpos p) + e) ->
  magnitude p e <= K -> -1022 <= K <= 1023 ->
  small s (K + 1) (binary_round_aux prec emax s (Zpos p) e loc_Exact).
Proof.
  intros Hcan Hmag HK. apply below_small.
  pose proof Hcan as Hcan'. rewrite Zdigits2_log2, fexp_eq in Hcan'.
  unfold magnitude in Hmag.
  apply binary_round_aux_below; [exact Hcan|apply bounded_pow2; exact HK|lia|].
  change (Zpos (2 ^ 52)) with (2 ^ 52). rewrite <- Z.pow_add_r by lia.
  replace (52 + (K - 52 - e)) with (K - e) by lia.
  apply lt_pow2_magnitude. exact Hmag.
Qed.

Lemma binary_round_small s p e K :
  e <= K - 52 -> magnitude p e <= K -> -1022 <= K <= 1023 ->
  small s (K + 1) (binary_round prec emax s p e).
Proof.
  intros He Hmag HK. apply below_small.
  apply binary_round_below; [apply bounded_pow2; exact HK|exact He|].
  change (Zpos (2 ^ 52)) with (2 ^ 52). rewrite <- Z.pow_add_r by lia.
  replace (52 + (K - 52 - e)) with (K - e) by lia.
  apply lt_pow2_magnitude. exact Hmag.
Qed.

(** The product of two valid floats below [2^a] and [2^b]. *)
Lemma SFmul_small sx mx ex sy my ey a b :
  SpecFloat.bounded prec emax mx ex = true ->
  SpecFloat.bounded prec emax my ey = true ->
  magnitude mx ex <= a -> magnitude my ey <= b -> -1022 <= a + b <= 1023 ->
  small (xorb sx sy) (a + b + 1)
        (SFmul prec emax (S754_finite sx mx ex) (S754_finite sy my ey)).
Proof.
  intros Hx Hy Ha Hb HK. cbn [SFmul].
  apply bounded_spec in Hx. apply bounded_spec in Hy. unfold magnitude in *.
  pose proof (Z.log2_mul_above (Zpos mx) (Zpos my) ltac:(lia) ltac:(lia)) as Habove.
  pose proof (Z.log2_mul_below (Zpos mx) (Zpos my) ltac:(lia) ltac:(lia)) as Hbelow.
  pose proof (Z.log2_nonneg (Zpos mx)). pose proof (Z.log2_nonneg (Zpos my)).
  apply binary_round_aux_small; [| |exact HK].
  - rewrite Zdigits2_log2, fexp_eq. rewrite Pos2Z.inj_mul. lia.
  - unfold magnitude. rewrite Pos2Z.inj_mul. lia.
Qed.

(** The sum of two valid positive floats below [2^(K-1)]. *)
Lemma SFadd_small mx ex my ey K :
  SpecFloat.bounded prec emax mx ex = true ->
  SpecFloat.bounded prec emax my ey = true ->
  magnitude mx ex <= K - 1 -> magnitude my ey <= K - 1 -> -1022 <= K <= 1023 ->
  small false (K + 1)
        (SFadd prec emax (S754_finite false mx ex) (S754_finite false my ey)).
Proof.
  intros Hx Hy Ha Hb HK. cbn [SFadd cond_Zopp].
  pose proof Hx as Hx'. pose proof Hy as Hy'.
  apply bounded_spec in Hx'. apply bounded_spec in Hy'. unfold magnitude in *.
  set (ez := Z.min ex ey). assert (Eez : ez = Z.min ex ey) by reflexivity. clearbody ez.
  destruct (shl_align_spec mx ex ez ltac:(lia)) as (X & EX & HX).
  destruct (shl_align_spec my ey ez ltac:(lia)) as (Y & EY & HY).
  rewrite EX, EY. cbn [fst]. change (Zpos X + Zpos Y) with (Zpos (X + Y)).
  cbn [binary_normalize].
  pose proof (Z.log2_nonneg (Zpos mx)). pose proof (Z.log2_nonneg (Zpos my)).
  assert (HXlt : Zpos X < 2 ^ (K - 1 - ez)).
  { rewrite HX. apply Z.lt_le_trans with (2 ^ (K - 1 - ex) * 2 ^ (ex - ez)).
    - apply Z.mul_lt_mono_pos_r; [apply Z.pow_pos_nonneg; lia|].
      apply lt_pow2_magnitude. lia.
    - rewrite <- Z.pow_add_r by lia. apply Z.pow_le_mono_r; lia. }
  assert (HYlt : Zpos Y < 2 ^ (K - 1 - ez)).
  { rewrite HY. apply Z.lt_le_trans with (2 ^ (K - 1 - ey) * 2 ^ (ey - ez)).
    - apply Z.mul_lt_mono_pos_r; [apply Z.pow_pos_nonneg; lia|].
      apply lt_pow2_magnitude. lia.
    - rewrite <- Z.pow_add_r by lia. apply Z.pow_le_mono_r; lia. }
  assert (Hsum : Zpos (X + Y) < 2 ^ (K - ez)).
  { rewrite Pos2Z.inj_add. replace (K - ez) with (Z.succ (K - 1 - ez)) by lia.
    rewrite Z.pow_succ_r by lia. lia. }
  apply binary_round_small; [lia| |exact HK].
  unfold magnitude.
  assert (Z.log2 (Zpos (X + Y)) < K - ez) by (apply Z.log2_lt_pow2; lia). lia.
Qed.

Lemma SFleb_magnitude m e mc ec :
  SpecFloat.bounded prec emax m e = true ->
  SpecFloat.bounded prec emax mc ec = true ->
  SFleb (S754_finite false m e) (S754_finite false mc ec) = true ->
  magnitude m e <= magnitude mc ec.
Proof.
  intros Hb Hc Hle. apply bounded_spec in Hb. apply bounded_spec in Hc.
  unfold magnitude. unfold SFleb, SFcompare in Hle.
  destruct (Z.compare_spec e ec) as [-> | Hlt | Hgt].
  - rewrite Pos.compare_cont_spec in Hle. cbn [Pos.switch_Eq] in Hle.
    assert (Zpos m <= Zpos mc).
    { destruct (Pos.compare_spec m mc); try lia; discriminate. }
    pose proof (Z.log2_le_mono (Zpos m) (Zpos mc) ltac:(lia)). lia.
  - lia.
  - discriminate.
Qed.

Lemma SFltb_SFleb x y : SFltb x y = true -> SFleb x y = true.
Proof. unfold SFltb, SFleb. destruct (SFcompare x y) as [[]|]; congruence. Qed.

(** A float between 0 and a finite positive bound is a zero or a valid
    positive float no larger in magnitude than the bound. *)
Lemma between_small (x c : float) mc ec :
  Prim2SF c = S754_finite false mc ec ->
  (0 <=? x)%float = true -> (x <=? c)%float = true ->
  small false (magnitude mc ec) (Prim2SF x).
Proof.
  intros Ec H0 Hc. pose proof (Prim2SF_valid x) as Hv. pose proof (Prim2SF_valid c) as Hvc.
  rewrite FloatAxioms.leb_spec in H0, Hc. rewrite Ec in Hc, Hvc.
  change (Prim2SF 0) with (S754_zero false) in H0.
  destruct (Prim2SF x) as [s|[]| |[] m e]; try discriminate.
  - left. eauto.
  - right. exists m, e. split; [reflexivity|]. split; [exact Hv|].
    apply SFleb_magnitude; assumption.
Qed.

(** With an angle in [[0, 2π)], a speed in [[0, 1]] and a [dt] in
    [[0, 1e300]], the advance [angle + speed * dt] does not overflow. *)
Lemma advance_no_overflow (a s dt : float) :
  (0 <=? a)%float = true -> (a <? two_pi)%float = true ->
  (0 <=? s)%float = true -> (s <=? 1)%float = true ->
  (0 <=? dt)%float = true -> (dt <=? 1e300)%float = true ->
  (a + s * dt <? infinity)%float = true.
Proof.
  intros Ha0 Ha1 Hs0 Hs1 Hd0 Hd1.
  assert (Ha : small false 3 (Prim2SF a)).
  { apply (between_small a two_pi two_pi_m (-50)); [apply Prim2SF_two_pi|exact Ha0|].
    rewrite FloatAxioms.leb_spec. apply SFltb_SFleb.
    rewrite <- FloatAxioms.ltb_spec. exact Ha1. }
  assert (Hs : small false 1 (Prim2SF s)).
  { apply (between_small s 1%float (2 ^ 52) (-52)); [reflexivity|assumption|assumption]. }
  assert (Hd : small false 997 (Prim2SF dt)).
  { apply (between_small dt 1e300%float 6724873095247260 944);
      [vm_compute; reflexivity|assumption|assumption]. }
  assert (Hp : small false 999 (Prim2SF (s * dt)%float)).
  { rewrite mul_spec. unfold SF64mul.
    destruct Hs as [[ss ->]|(ms & es & -> & Hbs & Hms)];
      destruct Hd as [[sd ->]|(md & ed & -> & Hbd & Hmd)];
      try (left; cbn [SFmul]; eauto; fail).
    change false with (xorb false false). change 999 with (1 + 997 + 1).
    apply SFmul_small; try assumption; lia. }
  assert (Hsum : small false 1001 (Prim2SF (a + s * dt)%float)).
  { rewrite add_spec. unfold SF64add.
    destruct Ha as [[sa ->]|(ma & ea & -> & Hba & Hma)];
      destruct Hp as [[sp ->]|(mp & ep & -> & Hbp & Hmp)].
    - left. destruct sa, sp; cbn [SFadd]; eauto.
    - right. exists mp, ep. cbn [SFadd]. repeat split; [exact Hbp|lia].
    - right. exists ma, ea. cbn [SFadd]. repeat split; [exact Hba|lia].
    - change 1001 with (1000 + 1). apply SFadd_small; try assumption; lia. }
  rewrite FloatAxioms.ltb_spec. change (Prim2SF infinity) with (S754_infinity false).
  destruct Hsum as [[sz ->]|(mz & ez & -> & _)]; reflexivity.
Qed.

(** ** Remainders of what is already reduced *)

Lemma binary_round_canonical s m e :
  SpecFloat.bounded prec emax m e = true ->
  binary_round prec emax s m e = S754_finite s m e.
Proof.
  intros Hb. pose proof Hb as Hb'. apply bounded_spec in Hb'.
  unfold SpecFloat.bounded, canonical_mantissa in Hb.
  apply andb_true_iff in Hb. destruct Hb as [Hcan _]. apply Z.eqb_eq in Hcan.
  unfold binary_round. rewrite Hcan, shl_align_ge by lia.
  apply binary_round_aux_exact; [exact Hcan|lia].
Qed.

(** [fmod] of a float smaller than the divisor is that float. *)
Lemma SFfmod_small_id s m e my ey :
  SpecFloat.bounded prec emax m e = true ->
  SpecFloat.bounded prec emax my ey = true ->
  e < ey \/ (e = ey /\ Zpos m < Zpos my) ->
  SFfmod (S754_finite s m e) (S754_finite false my ey) = S754_finite s m e.
Proof.
  intros Hb Hy Hlt. cbn [SFfmod].
  pose proof Hb as Hb'. pose proof Hy as Hy'.
  apply bounded_spec in Hb'. apply bounded_spec in Hy'.
  assert (Hmin : Z.min e ey = e) by lia. rewrite Hmin.
  rewrite (shl_align_ge m e e) by lia.
  destruct (shl_align_spec my ey e ltac:(lia)) as (Y & EY & HY). rewrite EY.
  cbn [fst].
  pose proof (log2_bounds (Zpos m) ltac:(lia)) as Hm.
  pose proof (log2_bounds (Zpos my) ltac:(lia)) as Hmy.
  assert (HXY : Zpos m < Zpos Y).
  { rewrite HY. destruct Hlt as [Hlt|[-> Hlt]].
    - assert (Z.log2 (Zpos my) = 52) by lia.
      replace (Z.log2 (Zpos my)) with 52 in Hmy by lia.
      assert (Hm53 : Zpos m < 2 ^ 53).
      { apply Z.lt_le_trans with (2 ^ (Z.log2 (Zpos m) + 1)); [apply Hm|].
        apply Z.pow_le_mono_r; lia. }
      assert (2 ^ 1 <= 2 ^ (ey - e)) by (apply Z.pow_le_mono_r; lia).
      change (2 ^ 1) with 2 in H0.
      clear - Hm53 Hmy H0.
      apply Z.lt_le_trans with (2 ^ 53); [exact Hm53|].
      apply Z.le_trans with (Zpos my * 2); [lia|].
      apply Z.mul_le_mono_nonneg_l; lia.
    - rewrite Z.sub_diag. rewrite Z.pow_0_r. lia. }
  rewrite Z.rem_small by lia.
  replace (binary_normalize prec emax (cond_Zopp s (Zpos m)) e s)
    with (binary_round prec emax s m e) by (destruct s; reflexivity).
  apply binary_round_canonical. exact Hb.
Qed.

(** [x % (2 * math.pi)] gives [x] back when [0 <= x < 2π], up to the sign
    of a zero. *)
Lemma float_rem_reduced (x : float) :
  (0 <=? x)%float = true -> (x <? two_pi)%float = true ->
  exists a, float_rem x two_pi = Ok a /\ (a =? x)%float = true.
Proof.
  intros H0 H1. pose proof (Prim2SF_valid x) as Hv.
  rewrite FloatAxioms.leb_spec in H0. rewrite FloatAxioms.ltb_spec, Prim2SF_two_pi in H1.
  change (Prim2SF 0) with (S754_zero false) in H0.
  unfold float_rem. change ((two_pi =? 0)%float) with false.
  change ((two_pi <? 0)%float) with false. cbv iota.
  unfold fmod. rewrite Prim2SF_two_pi.
  destruct (Prim2SF x) as [s|[]| |[] m e] eqn:Ex; try discriminate.
  - cbn [SFfmod]. exists zero. split; [destruct s; reflexivity|].
    rewrite FloatAxioms.eqb_spec, Ex. destruct s; reflexivity.
  - assert (Hlt : e < -50 \/ (e = -50 /\ Zpos m < Zpos two_pi_m)).
    { unfold SFltb, SFcompare in H1. destruct (Z.compare_spec e (-50)) as [-> | Hlt | Hgt].
      - right. split; [reflexivity|].
        rewrite Pos.compare_cont_spec in H1. cbn [Pos.switch_Eq] in H1.
        destruct (Pos.compare_spec m two_pi_m) as [ | Hm | ]; try discriminate.
        exact Hm.
      - left. exact Hlt.
      - discriminate. }
    rewrite (SFfmod_small_id false m e two_pi_m (-50) Hv bounded_two_pi Hlt).
    rewrite <- Ex, SF2Prim_Prim2SF.
    assert (E0 : (x =? 0)%float = false) by (rewrite FloatAxioms.eqb_spec, Ex; reflexivity).
    assert (El : (x <? 0)%float = false) by (rewrite FloatAxioms.ltb_spec, Ex; reflexivity).
    rewrite E0, El. cbn [negb Bool.eqb]. exists x. split; [reflexivity|].
    rewrite FloatAxioms.eqb_spec, Ex. apply SFeqb_refl_finite.
Qed.

(** Adding a zero does not change a float, up to the sign of a zero. *)
Lemma add_zero_eqb (x z : float) :
  (0 <=? x)%float = true -> (z =? 0)%float = true ->
  ((x + z) =? x)%float = true /\ (0 <=? x + z)%float = true.
Proof.
  rewrite !FloatAxioms.leb_spec, !FloatAxioms.eqb_spec, add_spec.
  change (Prim2SF 0) with (S754_zero false). unfold SF64add.
  intros Hx Hz.
  destruct (Prim2SF z) as [sz|[]| |[] mz ez]; try discriminate.
  destruct (Prim2SF x) as [s|[]| |[] m e]; try discriminate.
  - destruct s, sz; split; reflexivity.
  - split; reflexivity.
  - cbn [SFadd]. split; [apply SFeqb_refl_finite|reflexivity].
Qed.

(** ** Traversals that fail *)

Section Failures.
Context {E A : Type} (body : M E A).

Lemma map_each_raise (l : list E) (x : exn) :
  fst (map_each body l) = Raise x <->
  exists l1 e l2, l = l1 ++ e :: l2 /\
    Forall (fun e' => exists a, fst (body e') = Ok a) l1 /\ fst (body e) = Raise x.
Proof.
  split.
  - induction l as [|e l IH]; cbn [map_each]; [discriminate|].
    destruct (body e) as [[a|y] e'] eqn:Eb.
    + destruct (map_each body l) as [[r|y] l'] eqn:Em; [discriminate|].
      cbn [fst]. intros [= ->].
      destruct (IH eq_refl) as (l1 & e0 & l2 & -> & Hl1 & He0).
      exists (e :: l1), e0, l2. split; [reflexivity|]. split; [|exact He0].
      constructor; [|exact Hl1]. exists a. rewrite Eb. reflexivity.
    + cbn [fst]. intros [= ->]. exists [], e, l.
      split; [reflexivity|]. split; [constructor|]. rewrite Eb. reflexivity.
  - intros (l1 & e & l2 & -> & Hl1 & He).
    induction Hl1 as [|e1 l1 (a & Ha) _ IH]; cbn [app map_each].
    + destruct (body e) as [[a|y] e']; cbn [fst] in He; [discriminate|].
      injection He as ->. reflexivity.
    + destruct (body e1) as [[a'|y] e']; cbn [fst] in Ha; [|discriminate].
      destruct (map_each body (l1 ++ e :: l2)) as [[r|y] l']; cbn [fst] in IH;
        [discriminate|].
      injection IH as ->. reflexivity.
Qed.

Lemma map_each_cases (c : E -> bool) (f : E -> A) (x0 : exn) (l : list E) :
  Forall (fun e => body e = (if c e then Ok (f e) else Raise x0, e)) l ->
  map_each body l = (if forallb c l then Ok (List.map f l) else Raise x0, l).
Proof.
  induction 1 as [|e l He Hl IH]; [reflexivity|].
  cbn [map_each List.map forallb]. rewrite He, IH.
  destruct (c e); [|reflexivity]. cbn [andb]. destruct (forallb c l); reflexivity.
Qed.

End Failures.

(** ** Electron.step and Atom.step on any atom *)

Lemma Electron_step_speed (dt : float) (e : Electron) :
  speed (snd (Electron_step dt e)) = speed e.
Proof. destruct (Electron_step_spec dt e) as (x & _ & ->). reflexivity. Qed.

Lemma Electron_step_ok (dt : float) (e : Electron) :
  Electron_step dt e = (Ok tt, snd (Electron_step dt e)).
Proof. destruct (Electron_step_spec dt e) as (x & _ & ->). reflexivity. Qed.

(** Property X1. [Atom.step] returns for every atom and every [dt]. It
    keeps [Z] and the number and order of the electrons, and the electron
    at each place is what [Electron.step] makes of the old one, with the
    same shell and speed. *)
Theorem Atom_step_each (dt : float) (a : Atom) :
  exists l',
    Atom_step dt a = (Ok tt, {| atom_Z := atom_Z a; electrons := l' |}) /\
    Forall2 (fun e e' => Electron_step dt e = (Ok tt, e') /\
                         shell e' = shell e /\ speed e' = speed e)
            (electrons a) l'.
Proof.
  rewrite Atom_step_eq. eexists. split; [reflexivity|].
  induction (electrons a) as [|e l IH]; cbn [List.map]; constructor; [|exact IH].
  split; [apply Electron_step_ok|].
  split; [apply Electron_step_shell|apply Electron_step_speed].
Qed.



(** Property X2. [_populate_electrons] never raises and rebuilds the
    eight electrons whatever the atom held before: the outcome is that of
    the constructor for the same [Z], and a second call changes nothing. *)
Theorem populate_resets (a : Atom) :
  Atom_populate_electrons a = (Ok tt, snd (Atom_init (atom_Z a))) /\
  Atom_populate_electrons (snd (Atom_populate_electrons a)) = Atom_populate_electrons a.
Proof.
  rewrite !Atom_populate_electrons_eq, Atom_init_eq. split; reflexivity.
Qed.

Section MoreAtomFacts.
Context {libm : Libm}.

Lemma exec_speeds (o : Op) (a : Atom) :
  List.map speed (electrons a) = List.map speed initial_electrons ->
  List.map speed (electrons (exec o a)) = List.map speed initial_electrons.
Proof.
  intros Ha. destruct o as [dt|rs| |]; cbn [exec].
  - rewrite Atom_step_eq. cbn [snd electrons set_electrons].
    rewrite List.map_map, <- Ha. apply List.map_ext. intros e. apply Electron_step_speed.
  - rewrite Atom_positions_frame. exact Ha.
  - rewrite Atom_summary_frame. exact Ha.
  - rewrite Atom_populate_electrons_eq. reflexivity.
Qed.

(** Property X3. No method changes a speed: in every state an atom
    reaches from its construction, the speeds of its electrons are the
    initial ones, in order. *)
Theorem speeds_fixed (Z : Z) (ops : list Op) :
  List.map speed (electrons (run ops (snd (Atom_init Z))))
  = List.map speed initial_electrons.
Proof.
  assert (H0 : List.map speed (electrons (snd (Atom_init Z)))
               = List.map speed initial_electrons)
    by (rewrite Atom_init_eq; reflexivity).
  revert H0. generalize (snd (Atom_init Z)).
  induction ops as [|o ops IH]; intros a Ha; [exact Ha|].
  change (run (o :: ops) a) with (run ops (exec o a)).
  apply IH. apply exec_speeds. exact Ha.
Qed.

(** ** How position and positions fail *)

Lemma float_of_int_cases (n : Z) :
  float_of_int n = Ok (float_of_Z n) \/
  (float_of_int n = Raise OverflowError /\ 2 ^ 1024 - 2 ^ 971 <= Z.abs n).
Proof.
  destruct (Z_lt_le_dec (Z.abs n) (2 ^ 1024 - 2 ^ 971)) as [Hlt|Hge].
  - left. apply float_of_int_ok. exact Hlt.
  - unfold float_of_int. fold (float_of_Z n).
    destruct (is_infinity (float_of_Z n)); [right|left]; [|reflexivity].
    split; [reflexivity|exact Hge].
Qed.

Lemma Electron_position_cases (radius_scale : float) (e : Electron) :
  Electron_position radius_scale e =
  (if convertible e
   then if is_infinity (angle e) then Raise ValueError
        else Ok (position_of radius_scale e)
   else Raise OverflowError, e).
Proof.
  unfold convertible, Electron_position, bind, get, lift, ret, int_mul_float,
    math_cos, math_sin, position_of.
  destruct (float_of_int_cases (shell e)) as [-> | [-> _]]; [|reflexivity].
  destruct (is_infinity (angle e)); [reflexivity|].
  rewrite (float_mul_comm (float_of_Z (shell e)) radius_scale). reflexivity.
Qed.

(** Property X4. When [Electron.position] raises, it raises
    [OverflowError] because the shell is an [int] too large for a float, at
    least [2^1024 - 2^971] in magnitude, or else [ValueError] because the
    angle is an infinity. The overflow comes first, and the outcome is the
    same for every [radius_scale]. *)
Theorem position_raises_only (radius_scale : float) (e : Electron) (x : exn) :
  fst (Electron_position radius_scale e) = Raise x ->
  ((x = OverflowError /\ float_of_int (shell e) = Raise OverflowError /\
    2 ^ 1024 - 2 ^ 971 <= Z.abs (shell e)) \/
   (x = ValueError /\ is_infinity (angle e) = true /\
    float_of_int (shell e) = Ok (float_of_Z (shell e)))) /\
  forall radius_scale', Electron_position radius_scale' e = (Raise x, e).
Proof.
  rewrite Electron_position_cases. unfold convertible. cbn [fst].
  destruct (float_of_int_cases (shell e)) as [Hc | [Hc Hge]]; rewrite Hc.
  - destruct (is_infinity (angle e)) eqn:Hinf; [|discriminate].
    intros [= <-]. split.
    + right. split; [reflexivity|]. split; reflexivity.
    + intros rs'. rewrite Electron_position_cases. unfold convertible.
      rewrite Hc, Hinf. reflexivity.
  - intros [= <-]. split.
    + left. split; [reflexivity|]. split; [reflexivity|exact Hge].
    + intros rs'. rewrite Electron_position_cases. unfold convertible.
      rewrite Hc. reflexivity.
Qed.

(** Property X5. [Atom.positions] raises exactly when [position] raises
    for some electron, and it raises what the first such electron
    raises. *)
Theorem positions_first_failure (radius_scale : float) (a : Atom) (x : exn) :
  fst (Atom_positions radius_scale a) = Raise x <->
  exists l1 e l2,
    electrons a = l1 ++ e :: l2 /\
    Forall (fun e' => exists xy, Electron_position radius_scale e' = (Ok xy, e')) l1 /\
    Electron_position radius_scale e = (Raise x, e).
Proof.
  unfold Atom_positions, zoom.
  pose proof (map_each_raise (Electron_position radius_scale) (electrons a) x) as Hr.
  destruct (map_each (Electron_position radius_scale) (electrons a)) as [r l].
  cbn [fst] in *. rewrite Hr. clear Hr.
  assert (Hpair : forall (e : Electron) r0,
            fst (Electron_position radius_scale e) = r0 <->
            Electron_position radius_scale e = (r0, e)).
  { intros e r0. split.
    - intros <-. rewrite <- (Electron_position_frame radius_scale e) at 3.
      apply surjective_pairing.
    - intros ->. reflexivity. }
  split; intros (l1 & e & l2 & El & Hl1 & He); exists l1, e, l2;
    (split; [exact El|]); (split; [|apply Hpair; exact He]);
    (eapply List.Forall_impl; [|exact Hl1]); cbn beta; intros e' (xy & Hxy);
    exists xy; apply Hpair; exact Hxy.
Qed.

End MoreAtomFacts.

(** An electron with both defects: the overflow is what is raised. *)
Lemma position_raises_only_witness :
  ((OverflowError = OverflowError /\
    float_of_int (shell electron_out_of_range) = Raise OverflowError /\
    2 ^ 1024 - 2 ^ 971 <= Z.abs (shell electron_out_of_range)) \/
   (OverflowError = ValueError /\
    is_infinity (angle electron_out_of_range) = true /\
    float_of_int (shell electron_out_of_range)
    = Ok (float_of_Z (shell electron_out_of_range)))) /\
  forall radius_scale',
    Electron_position (libm := libm_small_angle) radius_scale' electron_out_of_range
    = (Raise OverflowError, electron_out_of_range).
Proof.
  apply (position_raises_only (libm := libm_small_angle) 1%float
           electron_out_of_range OverflowError).
  vm_compute. reflexivity.
Defined.

(** ** positions and summary leave the atom as it was *)

Section ReadOnly.
Context {libm : Libm}.

Lemma Atom_positions_returns (radius_scale : float) (a : Atom) :
  forallb placeable (electrons a) = true ->
  Atom_positions radius_scale a
  = (Ok (List.map (position_of radius_scale) (electrons a)), a).
Proof.
  intros Hp. unfold Atom_positions, zoom.
  rewrite (map_each_ok (Electron_position radius_scale) (position_of radius_scale) (fun e => e)).
  - rewrite List.map_id, set_electrons_id. reflexivity.
  - apply List.Forall_forall. intros e He.
    rewrite forallb_forall in Hp. specialize (Hp e He).
    unfold placeable in Hp. apply andb_true_iff in Hp. destruct Hp as [Hc Hi].
    apply negb_true_iff in Hi. rewrite Electron_position_cases, Hc, Hi. reflexivity.
Qed.

Lemma Atom_positions_raises (radius_scale : float) (a : Atom) :
  forallb placeable (electrons a) = false ->
  exists x, Atom_positions radius_scale a = (Raise x, a) /\
            (x = OverflowError \/ x = ValueError).
Proof.
  intros Hp.
  assert (Hl : forall l, forallb placeable l = false ->
            exists x, fst (map_each (Electron_position radius_scale) l) = Raise x /\
                      (x = OverflowError \/ x = ValueError)).
  { induction l as [|e l IH]; cbn [forallb map_each]; [discriminate|].
    rewrite Electron_position_cases. unfold placeable at 1.
    destruct (convertible e); cbn [andb negb].
    - destruct (is_infinity (angle e)); cbn [andb negb].
      + intros _. exists ValueError. split; [reflexivity|right; reflexivity].
      + intros Hl. destruct (IH Hl) as (x & Hx & Hcase). exists x. split; [|exact Hcase].
        destruct (map_each (Electron_position radius_scale) l) as [[r|y] l'];
          cbn [fst] in *; [discriminate|exact Hx].
    - intros _. exists OverflowError. split; [reflexivity|left; reflexivity]. }
  destruct (Hl _ Hp) as (x & Hx & Hcase). exists x. split; [|exact Hcase].
  rewrite (surjective_pairing (Atom_positions radius_scale a)), Atom_positions_frame.
  f_equal. unfold Atom_positions, zoom.
  destruct (map_each (Electron_position radius_scale) (electrons a)) as [r l'].
  exact Hx.
Qed.

Lemma renderable_placeable (e : Electron) : renderable e = true -> placeable e = true.
Proof.
  unfold renderable, placeable, convertible.
  rewrite !andb_true_iff, orb_true_iff, !Z.eqb_eq.
  intros [Hinf [-> | ->]]; (split; [reflexivity|exact Hinf]).
Qed.

Lemma reachable_placeable (a : Atom) :
  reachable a -> forallb placeable (electrons a) = true.
Proof.
  intros Hr. apply reachable_renderable in Hr.
  rewrite forallb_forall in *. intros e He. apply renderable_placeable, Hr, He.
Qed.

(** Claim C8 (amended). [positions] and [summary] leave the atom exactly as
    it was, in every state, also when they raise. When [positions]
    returns, it returns one pair per electron, in the order of the electron
    sequence, each the pair [position] returns for that electron. It
    returns exactly when every shell converts to a float and no angle is an
    infinity, which holds in every state an atom reaches from its
    construction through its methods; in any other state it raises
    [OverflowError] or [ValueError]. *)
Theorem positions_and_summary_read_only (a : Atom) (radius_scale : float) :
  snd (Atom_positions radius_scale a) = a /\
  snd (Atom_summary a) = a /\
  (forall ps, fst (Atom_positions radius_scale a) = Ok ps ->
     Forall2 (fun e xy => Electron_position radius_scale e = (Ok xy, e)) (electrons a) ps) /\
  (forallb placeable (electrons a) = true ->
     exists ps, Atom_positions radius_scale a = (Ok ps, a) /\
                length ps = length (electrons a)) /\
  (forallb placeable (electrons a) = false ->
     exists x, Atom_positions radius_scale a = (Raise x, a) /\
               (x = OverflowError \/ x = ValueError)) /\
  (reachable a -> forallb placeable (electrons a) = true).
Proof.
  split; [apply Atom_positions_frame|]. split; [apply Atom_summary_frame|].
  split; [|split; [|split]].
  - intros ps Hps. unfold Atom_positions, zoom in Hps.
    pose proof (map_each_result (Electron_position radius_scale) (electrons a) ps) as Hres.
    destruct (map_each (Electron_position radius_scale) (electrons a)) as [r l].
    cbn [fst] in *. specialize (Hres Hps).
    eapply List.Forall2_impl; [|exact Hres]. cbn beta. intros e xy Hxy.
    rewrite (surjective_pairing (Electron_position radius_scale e)), Hxy,
      Electron_position_frame. reflexivity.
  - intros Hp. rewrite Atom_positions_returns by exact Hp.
    eexists. split; [reflexivity|]. apply List.length_map.
  - apply Atom_positions_raises.
  - apply reachable_placeable.
Qed.

End ReadOnly.

(** A fresh default atom after two frames. *)
Lemma positions_and_summary_read_only_witness :
  exists ps,
    Atom_positions (libm := libm_small_angle) 1.5
      (run (libm := libm_small_angle) [OpStep 1; OpStep 1] (snd (Atom_init Z_)))
    = (Ok ps, run (libm := libm_small_angle) [OpStep 1; OpStep 1] (snd (Atom_init Z_))) /\
    length ps
    = length (electrons (run (libm := libm_small_angle) [OpStep 1; OpStep 1] (snd (Atom_init Z_)))).
Proof.
  apply (proj1 (proj2 (proj2 (proj2 (positions_and_summary_read_only (libm := libm_small_angle)
           (run (libm := libm_small_angle) [OpStep 1; OpStep 1] (snd (Atom_init Z_)))
           1.5%float))))).
  apply (proj2 (proj2 (proj2 (proj2 (proj2 (positions_and_summary_read_only (libm := libm_small_angle)
           (run (libm := libm_small_angle) [OpStep 1; OpStep 1] (snd (Atom_init Z_)))
           1.5%float)))))).
  exists Z_, [OpStep 1%float; OpStep 1%float]. reflexivity.
Defined.

(** Claim C8, as stated, fails: there are atom states in which
    [positions] does not return, for a positive [radiusScale]. An atom
    whose second electron was created at an infinite angle has eight
    electrons, and [positions(1.5)] raises [ValueError] on it. *)
Lemma positions_raises_on_stray_electron :
  (0 <? 1.5)%float = true /\
  length (electrons atom_with_stray_electron) = 8%nat /\
  Atom_positions (libm := libm_small_angle) 1.5 atom_with_stray_electron
  = (Raise ValueError, atom_with_stray_electron).
Proof. vm_compute. repeat split; reflexivity. Qed.

(** ** Atom.summary on any atom *)

Lemma tally_shell_lookup (sc : gmap Z Z) (e : Electron) (n : Z) :
  tally_shell sc e !! n
  = if shell e =? n then Some (default 0 (sc !! n) + 1) else sc !! n.
Proof.
  unfold tally_shell. destruct (Z.eqb_spec (shell e) n) as [->|Hne].
  - apply lookup_insert_eq.
  - apply lookup_insert_ne. exact Hne.
Qed.

Lemma fold_tally_lookup (l : list Electron) (sc : gmap Z Z) (n : Z) :
  fold_left tally_shell l sc !! n
  = match length (List.filter (fun e => shell e =? n) l) with
    | O => sc !! n
    | S k => Some (default 0 (sc !! n) + Z.of_nat (S k))
    end.
Proof.
  revert sc. induction l as [|e l IH]; intros sc; [reflexivity|].
  cbn [fold_left List.filter]. rewrite IH, tally_shell_lookup.
  destruct (shell e =? n); cbn [length].
  - destruct (length (List.filter (fun e0 => shell e0 =? n) l)) as [|k].
    + reflexivity.
    + cbn [from_option]. unfold Datatypes.id. f_equal. lia.
  - reflexivity.
Qed.

Lemma shell_counts_lookup (a : Atom) (n : Z) :
  shell_counts_of (electrons a) !! n
  = match electrons_on_shell n a with
    | O => None
    | S k => Some (Z.of_nat (S k))
    end.
Proof.
  unfold shell_counts_of, electrons_on_shell. rewrite fold_tally_lookup.
  destruct (length _); [apply lookup_empty|].
  rewrite lookup_empty. reflexivity.
Qed.

Lemma sorted_keys_In (d : gmap Z Z) (n : Z) :
  In n (sorted_keys d) <-> is_Some (d !! n).
Proof.
  unfold sorted_keys. rewrite <- list_elem_of_In, merge_sort_Permutation.
  rewrite list_elem_of_fmap. split.
  - intros ([k v] & -> & Hkv). apply elem_of_map_to_list in Hkv. exists v. exact Hkv.
  - intros [v Hv]. exists (n, v). split; [reflexivity|].
    apply elem_of_map_to_list. exact Hv.
Qed.

Lemma StronglySorted_le_lt (l : list Z) :
  StronglySorted Z.le l -> NoDup l -> StronglySorted Z.lt l.
Proof.
  induction 1 as [|x l Hs IH Hx]; intros Hnd; [constructor|].
  apply NoDup_cons in Hnd. destruct Hnd as [Hxl Hnd].
  constructor; [apply IH; exact Hnd|].
  rewrite List.Forall_forall in *. intros y Hy. specialize (Hx y Hy).
  assert (x <> y) by (intros ->; apply Hxl, list_elem_of_In; exact Hy). lia.
Qed.

Lemma sorted_keys_sorted (d : gmap Z Z) : StronglySorted Z.lt (sorted_keys d).
Proof.
  apply StronglySorted_le_lt.
  - apply (StronglySorted_merge_sort Z.le).
  - unfold sorted_keys. rewrite merge_sort_Permutation. apply NoDup_fst_map_to_list.
Qed.

Lemma map_result_cases {A B} (f : A -> result B) (c : A -> bool) (g : A -> B)
    (x0 : exn) (l : list A) :
  Forall (fun x => f x = if c x then Ok (g x) else Raise x0) l ->
  map_result f l = if forallb c l then Ok (List.map g l) else Raise x0.
Proof.
  induction 1 as [|x l Hx Hl IH]; [reflexivity|].
  cbn [map_result List.map forallb]. rewrite Hx, IH.
  destruct (c x); [|reflexivity]. cbn [andb]. destruct (forallb c l); reflexivity.
Qed.

Lemma str_of_int_printable (n : Z) :
  str_of_int n = if printable n then Ok (pretty n) else Raise ValueError.
Proof. reflexivity. Qed.

Lemma printable_le (m n : Z) :
  Z.abs m <= Z.abs n -> printable n = true -> printable m = true.
Proof. unfold printable. rewrite !Z.ltb_lt. apply Z.le_lt_trans. Qed.

Lemma Atom_summary_pair (a : Atom) : Atom_summary a = (fst (Atom_summary a), a).
Proof.
  rewrite (surjective_pairing (Atom_summary a)) at 1.
  rewrite Atom_summary_frame. reflexivity.
Qed.

(** Property X6. For every atom whose [Z], number of electrons and shells
    can be written in decimal, [summary()] returns the three header lines
    followed by one line per occupied shell, in strictly ascending shell
    order, each with the number of electrons on that shell. When one of
    these numbers has more than 4300 digits it raises [ValueError]. The
    atom is left as it was in both cases. *)
Theorem summary_lines (a : Atom) :
  exists shells,
    StronglySorted Z.lt shells /\
    (forall n, In n shells <-> (0 < electrons_on_shell n a)%nat) /\
    Atom_summary a
    = (if printable (atom_Z a) && printable (Z.of_nat (length (electrons a)))
          && forallb printable shells
       then Ok (String.concat newline
                  (summary_header a ++ List.map (shell_line_of a) shells))
       else Raise ValueError, a).
Proof.
  exists (sorted_keys (shell_counts_of (electrons a))).
  assert (Hin : forall n, In n (sorted_keys (shell_counts_of (electrons a)))
                          <-> (0 < electrons_on_shell n a)%nat).
  { intros n. rewrite sorted_keys_In, shell_counts_lookup.
    destruct (electrons_on_shell n a); split.
    - intros [v Hv]. discriminate.
    - lia.
    - lia.
    - intros _. eexists. reflexivity. }
  split; [apply sorted_keys_sorted|]. split; [exact Hin|].
  unfold Atom_summary, bind, get, lift, ret. rewrite !str_of_int_printable.
  destruct (printable (atom_Z a)); cbn [andb]; [|reflexivity].
  destruct (printable (Z.of_nat (length (electrons a)))) eqn:Hlen; cbn [andb];
    [|reflexivity].
  rewrite (map_result_cases _ printable (shell_line_of a) ValueError).
  - destruct (forallb printable (sorted_keys (shell_counts_of (electrons a))));
      reflexivity.
  - apply List.Forall_forall. intros n Hn. apply Hin in Hn.
    unfold shell_line, shell_line_of. rewrite !str_of_int_printable.
    destruct (printable n); [|reflexivity].
    pose proof (shell_counts_lookup a n) as Hl.
    assert (Hle : (electrons_on_shell n a <= length (electrons a))%nat)
      by apply List.filter_length_le.
    destruct (electrons_on_shell n a) as [|k]; [lia|].
    rewrite (lookup_total_correct _ _ _ Hl).
    rewrite (printable_le (Z.of_nat (S k)) (Z.of_nat (length (electrons a)))).
    + reflexivity.
    + rewrite !Z.abs_eq by apply Nat2Z.is_nonneg. apply Nat2Z.inj_le. exact Hle.
    + exact Hlen.
Qed.

(** An atomic number of 4301 digits: the atom is built, and [summary()]
    raises on its first line. *)
Example summary_of_long_Z :
  fst (Atom_init (10 ^ 4300)) = Ok tt /\
  Atom_summary atom_of_long_Z = (Raise ValueError, atom_of_long_Z) /\
  printable (10 ^ 4300 - 1) = true.
Proof.
  assert (Hpos : 0 < 10 ^ 4300) by (apply Z.pow_pos_nonneg; lia).
  split; [rewrite Atom_init_eq; reflexivity|]. split.
  - unfold atom_of_long_Z. rewrite Atom_init_eq. cbn [snd].
    unfold Atom_summary, bind, get, lift. rewrite str_of_int_printable.
    cbn [atom_Z].
    assert (Hn : printable (10 ^ 4300) = false).
    { unfold printable, int_max_str_digits.
      rewrite Z.abs_eq by (apply Z.lt_le_incl, Hpos). apply Z.ltb_irrefl. }
    rewrite Hn. reflexivity.
  - unfold printable, int_max_str_digits. apply Z.ltb_lt.
    revert Hpos. generalize (10 ^ 4300). intros P HP. lia.
Qed.

(** ** The two modes on any atom *)


Section MoreMainFacts.
Context {libm : Libm} {formatter : Formatter}.

(** Property X7. [run_print] on any atom leaves the atom as it was and
    writes nothing to the error stream. When [summary] raises, nothing is
    written at all. Otherwise the summary and the header of the positions
    are written, and then one line per position; when [positions] raises,
    the exception leaves [run_print] after the summary and the header have
    been written. *)
Theorem run_print_output (p : Process) :
  match fst (Atom_summary (atom p)) with
  | Raise x => run_print p = (Raise x, p)
  | Ok summary =>
      match fst (Atom_positions 1.5 (atom p)) with
      | Ok ps =>
          run_print p
          = (Ok tt,
             set_io {| stdout := stdout (io p) ++
                         summary :: "Positions initiales (x, y) :" ::
                         List.map position_line (enumerate ps 1);
                       stderr := stderr (io p) |} p)
      | Raise x =>
          run_print p
          = (Raise x,
             set_io {| stdout := stdout (io p) ++
                         [summary; "Positions initiales (x, y) :"];
                       stderr := stderr (io p) |} p)
      end
  end.
Proof.
  pose proof (Atom_summary_pair (atom p)) as Hsum.
  pose proof (Atom_positions_frame 1.5 (atom p)) as Hframe.
  destruct (Atom_positions 1.5 (atom p)) as [r a'] eqn:Hpos.
  cbn [fst snd] in *. subst a'.
  destruct p as [a [out err]]. cbn [atom io stdout stderr set_io] in *.
  unfold run_print.
  destruct (fst (Atom_summary a)) as [summary|x].
  - erewrite bind_ok; [|unfold zoom; cbn [atom]; rewrite Hsum; reflexivity].
    rewrite (bind_ok _ _ _ _ _ (print_eq _ _)).
    rewrite (bind_ok _ _ _ _ _ (print_eq _ _)).
    cbn [set_atom set_io atom io stdout stderr].
    destruct r as [ps|x].
    + erewrite bind_ok; [|unfold zoom; cbn [atom set_atom set_io]; rewrite Hpos; reflexivity].
      rewrite for_in_print. cbn [io stdout stderr set_io set_atom atom].
      rewrite <- !List.app_assoc. reflexivity.
    + erewrite bind_raise; [|unfold zoom; cbn [atom set_atom set_io]; rewrite Hpos; reflexivity].
      cbn [set_atom atom io]. rewrite <- !List.app_assoc. reflexivity.
  - erewrite bind_raise; [|unfold zoom; cbn [atom]; rewrite Hsum; reflexivity].
    reflexivity.
Qed.

(** On that atom [run_print] raises before it has written anything. *)
Example run_print_of_long_Z :
  run_print {| atom := atom_of_long_Z; io := {| stdout := []; stderr := [] |} |}
  = (Raise ValueError,
     {| atom := atom_of_long_Z; io := {| stdout := []; stderr := [] |} |}).
Proof.
  unfold run_print. erewrite bind_raise; [|unfold zoom; cbn [atom];
    rewrite (proj1 (proj2 summary_of_long_Z)); reflexivity].
  reflexivity.
Qed.


Lemma Atom_positions_cases (radius_scale : float) (a : Atom) :
  forallb (fun e => negb (is_infinity (angle e))) (electrons a) = true ->
  Atom_positions radius_scale a
  = (if forallb convertible (electrons a)
     then Ok (List.map (position_of radius_scale) (electrons a))
     else Raise OverflowError, a).
Proof.
  intros Hfin. unfold Atom_positions, zoom.
  rewrite (map_each_cases (Electron_position radius_scale) convertible
             (position_of radius_scale) OverflowError).
  - rewrite set_electrons_id. reflexivity.
  - apply List.Forall_forall. intros e He.
    rewrite forallb_forall in Hfin. specialize (Hfin e He).
    apply negb_true_iff in Hfin.
    rewrite Electron_position_cases, Hfin. reflexivity.
Qed.

Lemma Atom_step_not_inf (dt : float) (a : Atom) :
  forallb (fun e => negb (is_infinity (angle e))) (electrons (snd (Atom_step dt a))) = true.
Proof.
  rewrite Atom_step_eq. cbn [snd electrons set_electrons].
  apply forallb_forall. intros e' He'.
  apply List.in_map_iff in He'. destruct He' as (e & <- & _).
  destruct (Electron_step_spec dt e) as (x & Hx & ->). cbn [snd angle set_angle].
  rewrite (float_rem_two_pi_not_inf _ _ Hx). reflexivity.
Qed.

Lemma Atom_step_convertible (dt : float) (a : Atom) :
  forallb convertible (electrons (snd (Atom_step dt a)))
  = forallb convertible (electrons a).
Proof.
  rewrite Atom_step_eq. cbn [snd electrons set_electrons].
  induction (electrons a) as [|e l IH]; [reflexivity|].
  cbn [List.map forallb]. rewrite IH. f_equal.
  unfold convertible. rewrite Electron_step_shell. reflexivity.
Qed.

Lemma update_eq (p : Process) :
  update p
  = (if forallb convertible (electrons (atom p)) then Ok tt else Raise OverflowError,
     set_atom (snd (Atom_step 1 (atom p))) p).
Proof.
  unfold update.
  assert (H1 : float_of_int 1 = Ok 1%float) by (vm_compute; reflexivity).
  erewrite bind_ok; [|unfold lift; rewrite H1; reflexivity].
  erewrite bind_ok;
    [|unfold zoom; rewrite (surjective_pairing (Atom_step 1 (atom p))), Atom_step_eq at 1;
      reflexivity].
  pose proof (Atom_positions_cases 1.5 _ (Atom_step_not_inf 1 (atom p))) as Hpos.
  rewrite Atom_step_convertible in Hpos.
  destruct (forallb convertible (electrons (atom p))).
  - erewrite bind_ok;
      [|unfold zoom; cbn [atom set_atom]; rewrite Hpos; reflexivity].
    unfold ret. destruct p; reflexivity.
  - erewrite bind_raise;
      [|unfold zoom; cbn [atom set_atom]; rewrite Hpos; reflexivity].
    destruct p; reflexivity.
Qed.

(** Property X9. A frame of the animation always steps the atom by
    [dt = 1]. It raises only [OverflowError], exactly when some shell
    cannot be converted to a float, and never [ValueError], since a stepped
    angle is not an infinity. The step is done also when the frame
    raises. *)
Theorem update_outcome (p : Process) :
  update p
  = (if forallb convertible (electrons (atom p)) then Ok tt else Raise OverflowError,
     set_atom (snd (Atom_step 1 (atom p))) p) /\
  fst (update p) <> Raise ValueError /\
  forallb convertible (electrons (atom (snd (update p))))
  = forallb convertible (electrons (atom p)).
Proof.
  rewrite update_eq. split; [reflexivity|]. split.
  - cbn [fst]. destruct (forallb convertible (electrons (atom p))); discriminate.
  - cbn [snd atom set_atom]. apply Atom_step_convertible.
Qed.



End MoreMainFacts.


(** ** Angles stay reduced; a step that does not advance *)

Lemma step_well_formed (e : Electron) (dt : float) :
  well_formed e = true ->
  (0 <=? dt)%float = true -> (dt <=? 1e300)%float = true ->
  well_formed (snd (Electron_step dt e)) = true.
Proof.
  unfold well_formed, normalized. rewrite !andb_true_iff.
  intros [[[Ha0 Ha1] Hs0] Hs1] Hd0 Hd1.
  pose proof (advance_no_overflow _ _ _ Ha0 Ha1 Hs0 Hs1 Hd0 Hd1) as Hfin.
  destruct (step_normalized_once e dt Ha0 Hs0 Hd0 Hfin) as (a & -> & Hn).
  unfold normalized in Hn. rewrite andb_true_iff in Hn.
  cbn [snd speed set_angle] in *. auto.
Qed.

Section Invariant.
Context {libm : Libm}.

Lemma exec_well_formed (o : Op) (a : Atom) :
  bounded_op o = true ->
  forallb well_formed (electrons a) = true ->
  forallb well_formed (electrons (exec o a)) = true.
Proof.
  intros Ho Ha. destruct o as [dt|rs| |]; cbn [exec].
  - cbn [bounded_op] in Ho. apply andb_true_iff in Ho. destruct Ho as [Hd0 Hd1].
    rewrite Atom_step_eq. cbn [snd electrons set_electrons].
    rewrite forallb_forall in *. intros e' He'.
    apply List.in_map_iff in He'. destruct He' as (e & <- & He).
    apply step_well_formed; auto.
  - rewrite Atom_positions_frame. exact Ha.
  - rewrite Atom_summary_frame. exact Ha.
  - rewrite Atom_populate_electrons_eq. vm_compute. reflexivity.
Qed.

(** Property X11. From a constructed atom, any sequence of method calls
    whose steps have [0 <= dt <= 1e300] leaves every angle in
    [0 <= angle < 2π]: no advance overflows. *)
Theorem atom_stays_normalized (Z : Z) (ops : list Op) :
  forallb bounded_op ops = true ->
  forallb normalized (electrons (run ops (snd (Atom_init Z)))) = true.
Proof.
  intros Hops.
  assert (Hwf : forallb well_formed (electrons (run ops (snd (Atom_init Z)))) = true).
  { assert (H0 : forallb well_formed (electrons (snd (Atom_init Z))) = true)
      by (rewrite Atom_init_eq; vm_compute; reflexivity).
    revert Hops H0. generalize (snd (Atom_init Z)).
    induction ops as [|o ops IH]; intros a Hops Ha; [exact Ha|].
    cbn [forallb] in Hops. apply andb_true_iff in Hops. destruct Hops as [Ho Hops].
    change (run (o :: ops) a) with (run ops (exec o a)).
    apply IH; [exact Hops|]. apply exec_well_formed; assumption. }
  rewrite forallb_forall in *. intros e He. specialize (Hwf e He).
  unfold well_formed in Hwf. rewrite !andb_true_iff in Hwf. tauto.
Qed.

End Invariant.

Lemma atom_stays_normalized_witness :
  forallb normalized
    (electrons (run (libm := libm_small_angle)
                  [OpStep 1; OpPositions 1.5; OpStep 1e300; OpSummary; OpStep 0; OpPopulate; OpStep 0.5]
                  (snd (Atom_init Z_)))) = true.
Proof.
  apply (atom_stays_normalized (libm := libm_small_angle) Z_
           [OpStep 1; OpPositions 1.5; OpStep 1e300; OpSummary; OpStep 0; OpPopulate; OpStep 0.5]%float).
  vm_compute. reflexivity.
Defined.

Lemma SFeqb_eq (x y : spec_float) :
  SFeqb x y = true ->
  x = y \/ exists s s', x = S754_zero s /\ y = S754_zero s'.
Proof.
  unfold SFeqb, SFcompare.
  destruct x as [[]|[]| |[] m e], y as [[]|[]| |[] m' e']; try discriminate;
    try (intros _; right; eexists _, _; split; reflexivity);
    try (intros _; left; reflexivity).
  - destruct (Z.compare_spec e e') as [->| |]; try discriminate.
    rewrite Pos.compare_cont_spec. cbn [Pos.switch_Eq].
    destruct (Pos.compare_spec m m') as [->| |]; cbn [CompOpp]; try discriminate.
    intros _. left. reflexivity.
  - destruct (Z.compare_spec e e') as [->| |]; try discriminate.
    rewrite Pos.compare_cont_spec. cbn [Pos.switch_Eq].
    destruct (Pos.compare_spec m m') as [->| |]; try discriminate.
    intros _. left. reflexivity.
Qed.

(** Property X12. A step that does not advance, [speed * dt] being
    zero, leaves a reduced angle numerically as it was. *)
Theorem step_without_advance (e : Electron) (dt : float) :
  normalized e = true -> (speed e * dt =? 0)%float = true ->
  exists a, Electron_step dt e = (Ok tt, set_angle a e) /\
            (a =? angle e)%float = true.
Proof.
  unfold normalized. rewrite andb_true_iff. intros [Ha0 Ha1] Hz.
  destruct (add_zero_eqb _ _ Ha0 Hz) as [Heq Hpos].
  destruct (Electron_step_spec dt e) as (a & Ea & Estep).
  exists a. split; [exact Estep|].
  rewrite FloatAxioms.eqb_spec in Heq. apply SFeqb_eq in Heq.
  destruct Heq as [Heq | (s & s' & Hs & Hs')].
  - apply Prim2SF_inj in Heq. rewrite Heq in Ea.
    destruct (float_rem_reduced _ Ha0 Ha1) as (a' & Ea' & Haa).
    rewrite Ea in Ea'. injection Ea' as <-. exact Haa.
  - assert (Ez : float_rem (angle e + speed e * dt)%float two_pi = Ok zero).
    { unfold float_rem. change ((two_pi =? 0)%float) with false.
      change ((two_pi <? 0)%float) with false. cbv iota.
      unfold fmod. rewrite Hs, Prim2SF_two_pi. cbn [SFfmod].
      destruct s; reflexivity. }
    rewrite Ea in Ez. injection Ez as ->.
    rewrite FloatAxioms.eqb_spec, Hs'. destruct s'; reflexivity.
Qed.

Lemma step_without_advance_witness :
  exists a, Electron_step 0 (snd (Electron_step 1 electron_1))
            = (Ok tt, set_angle a (snd (Electron_step 1 electron_1))) /\
            (a =? angle (snd (Electron_step 1 electron_1)))%float = true.
Proof.
  apply (step_without_advance (snd (Electron_step 1 electron_1)) 0%float);
    vm_compute; reflexivity.
Defined.
